(** * SSIM over image sequences: the kernel builder and the windowed-statistics
      engine of [sat_pred/ssim.py]

    The development embeds [create_1d_gaussian_kernel],
    [create_2d_gaussian_kernel], [SSIM3D.__init__] and [SSIM3D.forward],
    line by line, over a small model of the torch operations they call.

    Numbers.  Python floats and the elements of torch tensors are modelled by
    the real numbers of the Standard Library, so every statement below is one
    of exact arithmetic: rounding, overflow, underflow and NaN are outside the
    model.  Two consequences are kept in view.  A division by zero, which
    gives [inf] or [nan] in torch, has no counterpart, so a statement that
    depends on a divisor takes it non-zero.  And [torch.exp] on float32
    returns exactly [0.0] far enough below zero, where the real exponential
    is positive: the strict positivity of the kernel weights is therefore
    studied on a second reading of the builder, [create_1d_gaussian_kernel_f32],
    in which that underflow is written out.  Python [int]s are [Z]; tensor
    extents and indices are [nat].

    Tensors.  A tensor is its shape together with an element accessor.  Only
    the accessor's values at in-range indices are meaningful, and two tensors
    are compared with [teq] (same shape, same elements in range).

    Exceptions.  Python code that may raise returns a [result]; the
    exception classes are the ones the interpreter and torch raise.

    Layout.  The model and the notions of the statements come first, then
    the lemmas (sums, kernels, construction, the steps of [forward], the
    local variance, calls on mismatched shapes), then one theorem per
    claim of the specification. *)

From Stdlib Require Import List ZArith Bool Arith Lia Reals Lra Psatz.
Import ListNotations.

Local Open Scope R_scope.

(** ** Exceptions *)

Inductive exn : Type :=
| AssertionError
| IndexError
| RuntimeError.

Inductive result (A : Type) : Type :=
| Ok (a : A)
| Raise (e : exn).

Arguments Ok {A} a.
Arguments Raise {A} e.

Definition bind {A B : Type} (m : result A) (k : A -> result B) : result B :=
  match m with
  | Ok a => k a
  | Raise e => Raise e
  end.

Notation "x <- m ;; k" := (bind m (fun x => k))
  (at level 61, m at next level, right associativity).

(** ** Finite sums *)

Fixpoint rsum (n : nat) (f : nat -> R) : R :=
  match n with
  | O => 0
  | S m => rsum m f + f m
  end.

(** ** Tensors *)

Record tensor : Type := mkTensor {
  size : list nat;
  item : list nat -> R
}.

Definition in_range (idx sz : list nat) : Prop := Forall2 lt idx sz.

(** Equality of tensors: one shape, the same element at every index in
    range. *)
Definition teq (a b : tensor) : Prop :=
  size a = size b /\ forall idx, in_range idx (size a) -> item a idx = item b idx.

(** Equality of outcomes: the same exception, or equal tensors. *)
Definition req (a b : result tensor) : Prop :=
  match a, b with
  | Ok s, Ok t => teq s t
  | Raise e, Raise e' => e = e'
  | _, _ => False
  end.

(** ** The torch operations the source calls

    Each definition follows the documented behaviour of the torch function
    of the same name, restricted to the argument forms the source uses. *)

Module Torch.

(** [t.size(d)] *)
Definition size_at (t : tensor) (d : nat) : result nat :=
  match nth_error (size t) d with
  | Some n => Ok n
  | None => Raise IndexError
  end.

(** Elementwise application of a scalar function. *)
Definition tmap (f : R -> R) (t : tensor) : tensor :=
  {| size := size t; item := fun idx => f (item t idx) |}.

(** [torch.linspace(start, end, steps)]: [steps] points, the first [start],
    consecutive points [(end - start) / (steps - 1)] apart. *)
Definition linspace (start stop : R) (steps : Z) : result tensor :=
  if (steps <? 0)%Z then Raise RuntimeError
  else Ok {| size := [Z.to_nat steps];
             item := fun idx =>
               start + INR (hd O idx) * ((stop - start) / (IZR steps - 1)) |}.

(** [torch.exp(t)], as the real exponential: it is never 0, where float32
    underflows to [0.0] below about -104 (see [exp_f32] further down). *)
Definition exp (t : tensor) : tensor := tmap Rtrigo_def.exp t.

(** [t.pow(2)] and [t ** 2] *)
Definition pow2 (t : tensor) : tensor := tmap (fun v => v ^ 2) t.

(** [t.sum()]: the sum of all elements. *)
Fixpoint sum_over (sz : list nat) (f : list nat -> R) : R :=
  match sz with
  | [] => f []
  | n :: rest => rsum n (fun i => sum_over rest (fun idx => f (i :: idx)))
  end.

Definition sum (t : tensor) : R := sum_over (size t) (item t).

(** [t.unsqueeze(dim)] for [0 <= dim <= t.dim()] *)
Fixpoint insert_at {A : Type} (d : nat) (a : A) (l : list A) : list A :=
  match d, l with
  | O, _ => a :: l
  | S d', x :: l' => x :: insert_at d' a l'
  | S _, [] => [a]
  end.

Fixpoint remove_at {A : Type} (d : nat) (l : list A) : list A :=
  match d, l with
  | _, [] => []
  | O, _ :: l' => l'
  | S d', x :: l' => x :: remove_at d' l'
  end.

Definition unsqueeze (d : nat) (t : tensor) : result tensor :=
  if (d <=? length (size t))%nat
  then Ok {| size := insert_at d 1%nat (size t);
             item := fun idx => item t (remove_at d idx) |}
  else Raise IndexError.

(** [torch.matmul(a, b)] for two 2-D tensors, the only case the source
    reaches (both operands are unsqueezed 1-D tensors). *)
Definition matmul (a b : tensor) : result tensor :=
  match size a, size b with
  | [n; k], [k'; m] =>
      if (k =? k')%nat
      then Ok {| size := [n; m];
                 item := fun idx =>
                   let i := nth 0 idx O in
                   let j := nth 1 idx O in
                   rsum k (fun l => item a [i; l] * item b [l; j]) |}
      else Raise RuntimeError
  | _, _ => Raise RuntimeError
  end.

(** Broadcasting.  Shapes are aligned at their last axis; an extent of 1
    stretches to the other operand's extent. *)
Fixpoint bshape_rev (s1 s2 : list nat) : option (list nat) :=
  match s1, s2 with
  | [], s => Some s
  | s, [] => Some s
  | a :: r1, b :: r2 =>
      match bshape_rev r1 r2 with
      | None => None
      | Some r =>
          if (a =? b)%nat then Some (a :: r)
          else if (a =? 1)%nat then Some (b :: r)
          else if (b =? 1)%nat then Some (a :: r)
          else None
      end
  end.

Definition broadcast_shapes (s1 s2 : list nat) : option (list nat) :=
  option_map (@rev nat) (bshape_rev (rev s1) (rev s2)).

(** The index of the operand's element that lands at [idx] of the
    broadcast result. *)
Fixpoint squash (sz idx : list nat) : list nat :=
  match sz, idx with
  | n :: sz', i :: idx' => (if (n =? 1)%nat then O else i) :: squash sz' idx'
  | _, _ => []
  end.

Definition bindex (sz idx : list nat) : list nat :=
  squash sz (skipn (length idx - length sz) idx).

Definition binop (f : R -> R -> R) (a b : tensor) : result tensor :=
  match broadcast_shapes (size a) (size b) with
  | Some sz =>
      Ok {| size := sz;
            item := fun idx =>
              f (item a (bindex (size a) idx)) (item b (bindex (size b) idx)) |}
  | None => Raise RuntimeError
  end.

Definition mul : tensor -> tensor -> result tensor := binop Rmult.
Definition add : tensor -> tensor -> result tensor := binop Rplus.
Definition sub : tensor -> tensor -> result tensor := binop Rminus.
Definition div : tensor -> tensor -> result tensor := binop Rdiv.

(** A Python number times a tensor, a tensor plus a Python number, a tensor
    divided by a number.  The division is the one of [R]: it is faithful for
    a non-zero divisor only (torch gives [inf] or [nan] at a zero divisor,
    [R] gives 0). *)
Definition smul (k : R) (t : tensor) : tensor := tmap (fun v => k * v) t.
Definition sadd (t : tensor) (c : R) : tensor := tmap (fun v => v + c) t.
Definition sdiv (t : tensor) (c : R) : tensor := tmap (fun v => v / c) t.

(** [t.expand] with one requested extent per axis: new leading axes take
    the requested extent, an existing axis keeps its extent when [-1] or the
    same extent is asked for, and an axis of extent 1 is stretched. *)
Fixpoint expand_tail (req : list Z) (old : list nat) : option (list nat) :=
  match req, old with
  | [], [] => Some []
  | s :: req', d :: old' =>
      match expand_tail req' old' with
      | None => None
      | Some r =>
          if (s =? -1)%Z then Some (d :: r)
          else if (s =? Z.of_nat d)%Z then Some (d :: r)
          else if ((d =? 1)%nat && (0 <=? s)%Z)%bool then Some (Z.to_nat s :: r)
          else None
      end
  | _, _ => None
  end.

Definition expand (req : list Z) (t : tensor) : result tensor :=
  let r := length (size t) in
  let n := length req in
  if (n <? r)%nat then Raise RuntimeError
  else if forallb (fun s => (0 <=? s)%Z) (firstn (n - r) req) then
    match expand_tail (skipn (n - r) req) (size t) with
    | Some sz =>
        Ok {| size := map Z.to_nat (firstn (n - r) req) ++ sz;
              item := fun idx => item t (squash (size t) (skipn (n - r) idx)) |}
    | None => Raise RuntimeError
    end
  else Raise RuntimeError.

(** [torch.cat(ts)] along axis 0: every tensor has at least one axis and all
    agree on the extents of the other axes. *)
Fixpoint cat_item (ts : list tensor) (i : nat) (rest : list nat) : R :=
  match ts with
  | [] => 0
  | t :: ts' =>
      let n := hd O (size t) in
      if (i <? n)%nat then item t (i :: rest) else cat_item ts' (i - n) rest
  end.

Definition cat (ts : list tensor) : result tensor :=
  match ts with
  | [] => Raise RuntimeError
  | t0 :: _ =>
      match size t0 with
      | [] => Raise RuntimeError
      | _ :: tl0 =>
          if forallb (fun t => match size t with
                               | [] => false
                               | _ :: tl => if list_eq_dec Nat.eq_dec tl tl0
                                            then true else false
                               end) ts
          then Ok {| size := fold_right (fun t acc => (hd O (size t) + acc)%nat) O ts :: tl0;
                     item := fun idx => cat_item ts (hd O idx) (tl idx) |}
          else Raise RuntimeError
      end
  end.

(** [t[lo:hi]] with [0 <= lo] and [0 <= hi]: a slice of axis 0, both bounds
    clipped to the extent. *)
Definition slice0 (lo hi : nat) (t : tensor) : result tensor :=
  match size t with
  | [] => Raise IndexError
  | n :: rest =>
      Ok {| size := (Nat.min hi n - Nat.min lo n)%nat :: rest;
            item := fun idx => item t ((lo + hd O idx)%nat :: tl idx) |}
  end.

(** [F.conv3d(input, weight, padding=padding, groups=groups)] without bias,
    stride 1, dilation 1: a cross-correlation over the last three axes of a
    zero-padded input.  [input] is [N, C, T, H, W], [weight] is
    [Cout, C / groups, kT, kH, kW]; output channel [co] reads the input
    channels of its group only.  The call raises on negative padding, on a
    group count that is not positive or does not divide the channel counts,
    on empty kernel, time, height or width extents, and on a padded input
    smaller than the kernel; an empty batch is accepted.  Only the batched
    form (a 5-axis input) is modelled. *)
Definition padded (x : tensor) (n c : nat) (pt ph pw T H W : nat) (a b d : nat) : R :=
  if ((pt <=? a) && (a <? pt + T) && (ph <=? b) && (b <? ph + H)
      && (pw <=? d) && (d <? pw + W))%nat%bool
  then item x [n; c; a - pt; b - ph; d - pw]%nat
  else 0.

Definition conv3d (input weight : tensor) (padding : list Z) (groups : nat)
  : result tensor :=
  match size input, size weight, padding with
  | [N; C; T; H; W], [Cout; Cg; kT; kH; kW], [pt; ph; pw] =>
      if ((0 <=? pt)%Z && (0 <=? ph)%Z && (0 <=? pw)%Z
          && (1 <=? groups)%nat && (Cout mod groups =? 0)%nat
          && (C =? Cg * groups)%nat
          && (1 <=? kT)%nat && (1 <=? kH)%nat && (1 <=? kW)%nat
          && (1 <=? T)%nat && (1 <=? H)%nat && (1 <=? W)%nat
          && (kT <=? T + 2 * Z.to_nat pt)%nat
          && (kH <=? H + 2 * Z.to_nat ph)%nat
          && (kW <=? W + 2 * Z.to_nat pw)%nat)%bool
      then
        let pt' := Z.to_nat pt in
        let ph' := Z.to_nat ph in
        let pw' := Z.to_nat pw in
        Ok {| size := [N; Cout; T + 2 * pt' - kT + 1; H + 2 * ph' - kH + 1;
                       W + 2 * pw' - kW + 1]%nat;
              item := fun idx =>
                let n := nth 0 idx O in
                let co := nth 1 idx O in
                let t := nth 2 idx O in
                let h := nth 3 idx O in
                let w := nth 4 idx O in
                rsum Cg (fun ci =>
                rsum kT (fun dt =>
                rsum kH (fun i =>
                rsum kW (fun j =>
                  item weight [co; ci; dt; i; j]
                  * padded input n (co / (Cout / groups) * Cg + ci)%nat
                      pt' ph' pw' T H W (t + dt)%nat (h + i)%nat (w + j)%nat)))) |}
      else Raise RuntimeError
  | _, _, _ => Raise RuntimeError
  end.

End Torch.

(** ** The kernel builder *)

(** [kernel_size: int | list[int]] and [sigma: float | list[float]] *)
Inductive int_or_list : Type :=
| PyInt (k : Z)
| IntList (l : list Z).

Inductive float_or_list : Type :=
| PyFloat (s : R)
| FloatList (l : list R).

(** [l[i]] on a Python list, [i >= 0] *)
Definition getitem {A : Type} (l : list A) (i : nat) : result A :=
  match nth_error l i with
  | Some a => Ok a
  | None => Raise IndexError
  end.

Definition create_1d_gaussian_kernel (kernel_size : Z) (sigma : R)
  : result tensor :=
  let ksize_half := IZR (kernel_size - 1) * 0.5 in
  kernel <- Torch.linspace (- ksize_half) ksize_half kernel_size ;;
  let gauss :=
    Torch.exp (Torch.smul (-0.5) (Torch.pow2 (Torch.sdiv kernel sigma))) in
  Ok (Torch.sdiv gauss (Torch.sum gauss)).

Definition int_pair (kernel_size : int_or_list) : list Z :=
  match kernel_size with
  | PyInt k => [k; k]
  | IntList l => l
  end.

Definition float_pair (sigma : float_or_list) : list R :=
  match sigma with
  | PyFloat s => [s; s]
  | FloatList l => l
  end.

Definition create_2d_gaussian_kernel
  (kernel_size : int_or_list) (sigma : float_or_list) : result tensor :=
  let kernel_size := int_pair kernel_size in
  let sigma := float_pair sigma in
  k0 <- getitem kernel_size 0 ;;
  s0 <- getitem sigma 0 ;;
  g0 <- create_1d_gaussian_kernel k0 s0 ;;
  kernel_x <- Torch.unsqueeze 1 g0 ;;
  k1 <- getitem kernel_size 1 ;;
  s1 <- getitem sigma 1 ;;
  g1 <- create_1d_gaussian_kernel k1 s1 ;;
  kernel_y <- Torch.unsqueeze 0 g1 ;;
  Torch.matmul kernel_x kernel_y.

(** ** The windowed-statistics engine *)

Module SSIM3D.

(** The arguments of the constructor. *)
Record args : Type := mkArgs {
  kernel_size : int_or_list;
  sigma : float_or_list;
  k1 : R;
  k2 : R;
  data_range : R
}.

Definition defaults : args :=
  {| kernel_size := PyInt 11; sigma := PyFloat 1.5;
     k1 := 0.01; k2 := 0.03; data_range := 1 |}.

(** The attributes the constructor sets. *)
Record t : Type := mkSSIM3D {
  c1 : R;
  c2 : R;
  kernel : tensor;
  pad : list Z
}.

Definition assert (b : bool) : result unit :=
  if b then Ok tt else Raise AssertionError.

Definition gt0 (v : R) : bool := if Rlt_dec 0 v then true else false.

Definition __init__ (a : args) : result t :=
  _ <- assert (gt0 (data_range a)) ;;
  _ <- assert (gt0 (k1 a)) ;;
  _ <- assert (gt0 (k2 a)) ;;
  let kernel_size := int_pair (kernel_size a) in
  let sigma := float_pair (sigma a) in
  let c1 := (k1 a * data_range a) ^ 2 in
  let c2 := (k2 a * data_range a) ^ 2 in
  kernel <- create_2d_gaussian_kernel (IntList kernel_size) (FloatList sigma) ;;
  let pad := 0%Z :: map (fun k => ((k - 1) / 2)%Z) kernel_size in
  Ok {| c1 := c1; c2 := c2; kernel := kernel; pad := pad |}.

Definition forward (self : t) (x y : tensor) : result tensor :=
  batch_size <- Torch.size_at x 0 ;;
  num_channels <- Torch.size_at x 1 ;;
  kernel <- Torch.expand [Z.of_nat num_channels; 1; 1; -1; -1]%Z (kernel self) ;;
  xy <- Torch.mul x y ;;
  kernal_inputs <- Torch.cat [x; y; Torch.pow2 x; Torch.pow2 y; xy] ;;
  kernel_outputs <- Torch.conv3d kernal_inputs kernel (pad self) num_channels ;;
  ux <- Torch.slice0 (0 * batch_size) (1 * batch_size) kernel_outputs ;;
  uy <- Torch.slice0 (1 * batch_size) (2 * batch_size) kernel_outputs ;;
  uxx <- Torch.slice0 (2 * batch_size) (3 * batch_size) kernel_outputs ;;
  uyy <- Torch.slice0 (3 * batch_size) (4 * batch_size) kernel_outputs ;;
  uxy <- Torch.slice0 (4 * batch_size) (5 * batch_size) kernel_outputs ;;
  ux_ux <- Torch.mul ux ux ;;
  vx <- Torch.sub uxx ux_ux ;;
  uy_uy <- Torch.mul uy uy ;;
  vy <- Torch.sub uyy uy_uy ;;
  ux_uy <- Torch.mul ux uy ;;
  vxy <- Torch.sub uxy ux_uy ;;
  two_ux_uy <- Torch.mul (Torch.smul 2 ux) uy ;;
  let a1 := Torch.sadd two_ux_uy (c1 self) in
  let a2 := Torch.sadd (Torch.smul 2 vxy) (c2 self) in
  sq_sum <- Torch.add (Torch.pow2 ux) (Torch.pow2 uy) ;;
  let b1 := Torch.sadd sq_sum (c1 self) in
  vx_vy <- Torch.add vx vy ;;
  let b2 := Torch.sadd vx_vy (c2 self) in
  num <- Torch.mul a1 a2 ;;
  den <- Torch.mul b1 b2 ;;
  Torch.div num den.

End SSIM3D.

Import SSIM3D.

(** ** Notions the statements use

    The definitions below are not part of the source: they name what the
    source computes (so that the steps of [forward] can be stated one at a
    time) and what the specification describes. *)

(** *** The 1-D kernel *)

(** The unnormalised weights as the source computes them: the [i]-th point
    of [linspace(-ksize_half, ksize_half, kernel_size)] through
    [exp(-0.5 * (t / sigma) ** 2)]. *)
Definition ksize_half (kernel_size : Z) : R := IZR (kernel_size - 1) * 0.5.

Definition grid (kernel_size : Z) (i : nat) : R :=
  - ksize_half kernel_size
  + INR i * ((ksize_half kernel_size - - ksize_half kernel_size)
             / (IZR kernel_size - 1)).

Definition gauss (kernel_size : Z) (sigma : R) (i : nat) : R :=
  Rtrigo_def.exp (-0.5 * (grid kernel_size i / sigma) ^ 2).

(** The normalised weights: [gauss / gauss.sum()]. *)
Definition weight (kernel_size : Z) (sigma : R) (i : nat) : R :=
  gauss kernel_size sigma i / rsum (Z.to_nat kernel_size) (gauss kernel_size sigma).

(** The elements of a 1-D tensor, in order ([t.tolist()]). *)
Definition elements (t : tensor) : list R :=
  map (fun i => item t [i]) (seq 0 (hd O (size t))).

(** The kernel as the specification words it: [kernel_size] evenly spaced
    points over the inclusive interval from [-(kernel_size - 1) / 2] to
    [(kernel_size - 1) / 2], the Gaussian at each, every element divided by
    the sum of all. *)
Definition sample_point (kernel_size : Z) (i : nat) : R :=
  INR i - (IZR kernel_size - 1) / 2.

Definition unnormalised (kernel_size : Z) (sigma : R) (i : nat) : R :=
  Rtrigo_def.exp (-0.5 * (sample_point kernel_size i / sigma) ^ 2).

Definition build1D (kernel_size : Z) (sigma : R) : list R :=
  let n := Z.to_nat kernel_size in
  map (fun i => unnormalised kernel_size sigma i
                / rsum n (unnormalised kernel_size sigma))
      (seq 0 n).

(** *** The 2-D kernel and the engine *)

(** The tensor [create_2d_gaussian_kernel] returns for the sizes
    [k0], [k1] and the deviations [s0], [s1]: the product of a column and a
    row, each entry a sum over the one shared axis position. *)
Definition kernel2d (k0 k1 : Z) (s0 s1 : R) : tensor :=
  {| size := [Z.to_nat k0; Z.to_nat k1];
     item := fun idx =>
       rsum 1 (fun l =>
         (gauss k0 s0 (nth 0 idx O) / rsum (Z.to_nat k0) (gauss k0 s0))
         * (gauss k1 s1 (nth 1 idx O) / rsum (Z.to_nat k1) (gauss k1 s1))) |}.

(** The attributes [__init__] sets when it succeeds. *)
Definition engine (a : args) (k0 k1 : Z) (s0 s1 : R) : SSIM3D.t :=
  {| c1 := (SSIM3D.k1 a * data_range a) ^ 2;
     c2 := (k2 a * data_range a) ^ 2;
     kernel := kernel2d k0 k1 s0 s1;
     pad := 0%Z :: map (fun k => ((k - 1) / 2)%Z) (int_pair (kernel_size a)) |}.

(** A tensor of one value ([torch.full]), for examples. *)
Definition full (sz : list nat) (v : R) : tensor :=
  {| size := sz; item := fun _ => v |}.

(** *** The steps of [forward] *)

(** The sizes on which [conv3d] accepts the call [forward] makes: [C]
    channels, [T] time steps, images of [H] by [W], a kernel of [kh] by
    [kw] and the paddings [ph], [pw]. *)
Definition fits (C T H W kh kw : nat) (ph pw : Z) : bool :=
  ((0 <=? ph)%Z && (0 <=? pw)%Z && (1 <=? C)%nat
   && (1 <=? kh)%nat && (1 <=? kw)%nat
   && (1 <=? T)%nat && (1 <=? H)%nat && (1 <=? W)%nat
   && (kh <=? H + 2 * Z.to_nat ph)%nat && (kw <=? W + 2 * Z.to_nat pw)%nat)%bool.

(** The extent of one convolved axis. *)
Definition out_extent (n k : nat) (p : Z) : nat := (n + 2 * Z.to_nat p - k + 1)%nat.

(** What that [conv3d] call returns. *)
Definition conv3d_out (input weight : tensor) (N C T H W kh kw : nat) (ph pw : Z)
  : tensor :=
  {| size := [N; C; T; H + 2 * Z.to_nat ph - kh + 1;
              W + 2 * Z.to_nat pw - kw + 1]%nat;
     item := fun idx =>
       rsum 1 (fun ci => rsum 1 (fun dt =>
       rsum kh (fun i => rsum kw (fun j =>
         item weight [nth 1 idx O; ci; dt; i; j]
         * Torch.padded input (nth 0 idx O)
             (nth 1 idx O / (C / C) * 1 + ci)%nat
             0 (Z.to_nat ph) (Z.to_nat pw) T H W
             (nth 2 idx O + dt)%nat (nth 3 idx O + i)%nat
             (nth 4 idx O + j)%nat)))) |}.

(** The part of [forward] after the convolution: the five slices and the
    formula. *)
Definition combine (self : SSIM3D.t) (batch_size : nat) (kernel_outputs : tensor)
  : result tensor :=
  ux <- Torch.slice0 (0 * batch_size) (1 * batch_size) kernel_outputs ;;
  uy <- Torch.slice0 (1 * batch_size) (2 * batch_size) kernel_outputs ;;
  uxx <- Torch.slice0 (2 * batch_size) (3 * batch_size) kernel_outputs ;;
  uyy <- Torch.slice0 (3 * batch_size) (4 * batch_size) kernel_outputs ;;
  uxy <- Torch.slice0 (4 * batch_size) (5 * batch_size) kernel_outputs ;;
  ux_ux <- Torch.mul ux ux ;;
  vx <- Torch.sub uxx ux_ux ;;
  uy_uy <- Torch.mul uy uy ;;
  vy <- Torch.sub uyy uy_uy ;;
  ux_uy <- Torch.mul ux uy ;;
  vxy <- Torch.sub uxy ux_uy ;;
  two_ux_uy <- Torch.mul (Torch.smul 2 ux) uy ;;
  let a1 := Torch.sadd two_ux_uy (c1 self) in
  let a2 := Torch.sadd (Torch.smul 2 vxy) (c2 self) in
  sq_sum <- Torch.add (Torch.pow2 ux) (Torch.pow2 uy) ;;
  let b1 := Torch.sadd sq_sum (c1 self) in
  vx_vy <- Torch.add vx vy ;;
  let b2 := Torch.sadd vx_vy (c2 self) in
  num <- Torch.mul a1 a2 ;;
  den <- Torch.mul b1 b2 ;;
  Torch.div num den.

(** *** The map as the specification words it *)

(** Reading a zero-padded image plane [v] of extent [H] by [W] at the
    padded position [(a, b)]. *)
Definition pad0 (ph pw H W : nat) (v : nat -> nat -> R) (a b : nat) : R :=
  if ((ph <=? a) && (a <? ph + H) && (pw <=? b) && (b <? pw + W))%nat%bool
  then v (a - ph)%nat (b - pw)%nat
  else 0.

(** The local mean of the volume [v] at the index [idx]: the kernel [K]
    over the window of the image of [idx]'s batch entry, channel and time
    step, zero-padded by [ph] rows and [pw] columns. *)
Definition local_mean (K : tensor) (ph pw : nat) (v : tensor) (idx : list nat) : R :=
  let kh := nth 0 (size K) O in
  let kw := nth 1 (size K) O in
  let H := nth 3 (size v) O in
  let W := nth 4 (size v) O in
  rsum kh (fun i => rsum kw (fun j =>
    item K [i; j]
    * pad0 ph pw H W
        (fun h w => item v [nth 0 idx O; nth 1 idx O; nth 2 idx O; h; w])
        (nth 3 idx O + i) (nth 4 idx O + j))).

(** The derived volumes: squares and products, element by element. *)
Definition square (v : tensor) : tensor :=
  {| size := size v; item := fun idx => item v idx ^ 2 |}.

Definition product (x y : tensor) : tensor :=
  {| size := size x; item := fun idx => item x idx * item y idx |}.

(** The formula of the map: [(a1 * a2) / (b1 * b2)]. *)
Definition ssim (c1 c2 ux uy uxx uyy uxy : R) : R :=
  (2 * ux * uy + c1) * (2 * (uxy - ux * uy) + c2)
  / ((ux ^ 2 + uy ^ 2 + c1) * ((uxx - ux ^ 2) + (uyy - uy ^ 2) + c2)).

(** *** Notions of the further properties *)

(** The dense 2-D Gaussian at the sample points [i] and [j] of the two
    axes, not normalised. *)
Definition dense_gauss (k0 k1 : Z) (s0 s1 : R) (i j : nat) : R :=
  Rtrigo_def.exp
    (-0.5 * ((sample_point k0 i / s0) ^ 2 + (sample_point k1 j / s1) ^ 2)).

(** By how much an axis shrinks under a kernel of size [k] padded by
    [(k - 1) // 2] on both sides: not at all for an odd size, by one for
    an even size. *)
Definition shrink (k : Z) : nat := if Z.even k then 1%nat else 0%nat.

(** The constructor's arguments with another [data_range]. *)
Definition with_data_range (a : args) (d : R) : args :=
  {| kernel_size := kernel_size a; sigma := sigma a;
     k1 := SSIM3D.k1 a; k2 := k2 a; data_range := d |}.

(** *** The kernel builder with the underflow of float32

    [torch.linspace] returns a float32 tensor (torch's default dtype), and
    [torch.exp] of a float32 below about -103.97 is exactly [0.0]: the real
    exponential is there under [2^-150], half the smallest positive float32.
    [exp_f32] writes this out with the cut at -104 and leaves every other
    value exact; the two builders below are the source's, line by line, with
    [torch.exp] read this way. *)
Definition exp_f32 (t : R) : R :=
  if Rlt_dec t (-104) then 0 else Rtrigo_def.exp t.

Definition create_1d_gaussian_kernel_f32 (kernel_size : Z) (sigma : R)
  : result tensor :=
  let ksize_half := IZR (kernel_size - 1) * 0.5 in
  kernel <- Torch.linspace (- ksize_half) ksize_half kernel_size ;;
  let gauss :=
    Torch.tmap exp_f32 (Torch.smul (-0.5) (Torch.pow2 (Torch.sdiv kernel sigma))) in
  Ok (Torch.sdiv gauss (Torch.sum gauss)).

Definition create_2d_gaussian_kernel_f32
  (kernel_size : int_or_list) (sigma : float_or_list) : result tensor :=
  let kernel_size := int_pair kernel_size in
  let sigma := float_pair sigma in
  k0 <- getitem kernel_size 0 ;;
  s0 <- getitem sigma 0 ;;
  g0 <- create_1d_gaussian_kernel_f32 k0 s0 ;;
  kernel_x <- Torch.unsqueeze 1 g0 ;;
  k1 <- getitem kernel_size 1 ;;
  s1 <- getitem sigma 1 ;;
  g1 <- create_1d_gaussian_kernel_f32 k1 s1 ;;
  kernel_y <- Torch.unsqueeze 0 g1 ;;
  Torch.matmul kernel_x kernel_y.

(** The argument of the exponential at the [i]-th point:
    [-0.5 * (t / sigma) ** 2]. *)
Definition exponent (kernel_size : Z) (sigma : R) (i : nat) : R :=
  -0.5 * (grid kernel_size i / sigma) ^ 2.

Definition gauss_f32 (kernel_size : Z) (sigma : R) (i : nat) : R :=
  exp_f32 (exponent kernel_size sigma i).

Definition weight_f32 (kernel_size : Z) (sigma : R) (i : nat) : R :=
  gauss_f32 kernel_size sigma i
  / rsum (Z.to_nat kernel_size) (gauss_f32 kernel_size sigma).

(** * Lemmas *)

(** ** Finite sums: algebra and order *)

Section Sums.

Lemma rsum_ext (n : nat) (f g : nat -> R) :
  (forall i, (i < n)%nat -> f i = g i) -> rsum n f = rsum n g.
Proof.
  induction n as [|n IH]; intros H; simpl; [reflexivity|].
  rewrite IH by (intros; apply H; lia).
  rewrite H by lia. reflexivity.
Qed.

Lemma rsum_plus (n : nat) (f g : nat -> R) :
  rsum n (fun i => f i + g i) = rsum n f + rsum n g.
Proof. induction n as [|n IH]; simpl; [|rewrite IH]; lra. Qed.

Lemma rsum_scal (n : nat) (c : R) (f : nat -> R) :
  rsum n (fun i => c * f i) = c * rsum n f.
Proof. induction n as [|n IH]; simpl; [|rewrite IH]; lra. Qed.

Lemma rsum_scal_r (n : nat) (c : R) (f : nat -> R) :
  rsum n (fun i => f i * c) = rsum n f * c.
Proof. induction n as [|n IH]; simpl; [|rewrite IH]; lra. Qed.

Lemma rsum_div (n : nat) (c : R) (f : nat -> R) :
  rsum n (fun i => f i / c) = rsum n f / c.
Proof. unfold Rdiv. apply rsum_scal_r. Qed.

Lemma rsum_nonneg (n : nat) (f : nat -> R) :
  (forall i, (i < n)%nat -> 0 <= f i) -> 0 <= rsum n f.
Proof.
  induction n as [|n IH]; intros H; simpl; [lra|].
  assert (0 <= rsum n f) by (apply IH; intros; apply H; lia).
  assert (0 <= f n) by (apply H; lia). lra.
Qed.

Lemma rsum_pos (n : nat) (f : nat -> R) :
  (1 <= n)%nat -> (forall i, (i < n)%nat -> 0 < f i) -> 0 < rsum n f.
Proof.
  intros Hn H. destruct n as [|n]; [lia|]. simpl.
  assert (0 <= rsum n f).
  { apply rsum_nonneg. intros i Hi. apply Rlt_le, H. lia. }
  assert (0 < f n) by (apply H; lia). lra.
Qed.

Lemma rsum_one (f : nat -> R) : rsum 1 f = f O.
Proof. simpl. lra. Qed.

End Sums.

(** ** The 1-D kernel *)

Section Kernel1D.

Variable kernel_size : Z.
Variable sigma : R.

Local Abbreviation n := (Z.to_nat kernel_size).

Lemma create_1d_returns :
  (0 <= kernel_size)%Z ->
  create_1d_gaussian_kernel kernel_size sigma =
  Ok {| size := [n];
        item := fun idx => gauss kernel_size sigma (hd O idx)
                           / rsum n (gauss kernel_size sigma) |}.
Proof.
  intros H. unfold create_1d_gaussian_kernel, Torch.linspace.
  destruct (Z.ltb_spec kernel_size 0) as [Hlt|_]; [lia|].
  reflexivity.
Qed.

Lemma create_1d_raises :
  (kernel_size < 0)%Z ->
  create_1d_gaussian_kernel kernel_size sigma = Raise RuntimeError.
Proof.
  intros H. unfold create_1d_gaussian_kernel, Torch.linspace.
  destruct (Z.ltb_spec kernel_size 0) as [_|Hge]; [reflexivity|lia].
Qed.

Hypothesis size_pos : (1 <= kernel_size)%Z.

Lemma INR_n : INR n = IZR kernel_size.
Proof. rewrite INR_IZR_INZ, Z2Nat.id by lia. reflexivity. Qed.

Lemma n_pos : (1 <= n)%nat.
Proof. lia. Qed.

Lemma INR_lt_n (i : nat) : (i < n)%nat -> INR i <= IZR kernel_size - 1.
Proof.
  intros Hi. rewrite <- INR_n.
  assert (H : INR (S i) <= INR n) by (apply le_INR; lia).
  rewrite S_INR in H. lra.
Qed.

(** The points of [linspace] are the specification's sample points. *)
Lemma grid_sample_point (i : nat) :
  (i < n)%nat -> grid kernel_size i = sample_point kernel_size i.
Proof.
  intros Hi. unfold grid, sample_point, ksize_half.
  rewrite minus_IZR. replace 0.5 with (1 / 2) by lra.
  destruct (Z.eq_dec kernel_size 1) as [->|Hne].
  - assert (i = O) by (simpl in Hi; lia). subst i.
    simpl. lra.
  - assert (IZR kernel_size - 1 <> 0).
    { assert (2 <= IZR kernel_size) by (apply IZR_le; lia). lra. }
    field. assumption.
Qed.

(** The sample points are evenly spaced, one apart, from [-(n-1)/2] to
    [(n-1)/2] inclusive. *)
Lemma sample_point_first :
  sample_point kernel_size 0 = - ((IZR kernel_size - 1) / 2).
Proof. unfold sample_point. simpl. lra. Qed.

Lemma sample_point_last :
  sample_point kernel_size (n - 1) = (IZR kernel_size - 1) / 2.
Proof.
  unfold sample_point. rewrite minus_INR by apply n_pos.
  rewrite INR_n. simpl. lra.
Qed.

Lemma sample_point_step (i : nat) :
  sample_point kernel_size (S i) - sample_point kernel_size i = 1.
Proof. unfold sample_point. rewrite S_INR. lra. Qed.

Lemma sample_point_mirror (i : nat) :
  (i < n)%nat ->
  sample_point kernel_size (n - 1 - i) = - sample_point kernel_size i.
Proof.
  intros Hi. unfold sample_point.
  rewrite !minus_INR by lia. rewrite INR_n. simpl. lra.
Qed.

Lemma gauss_unnormalised (i : nat) :
  (i < n)%nat -> gauss kernel_size sigma i = unnormalised kernel_size sigma i.
Proof.
  intros Hi. unfold gauss, unnormalised.
  rewrite grid_sample_point by assumption. reflexivity.
Qed.

Lemma gauss_pos (i : nat) : 0 < gauss kernel_size sigma i.
Proof. apply exp_pos. Qed.

Lemma gauss_sum_pos : 0 < rsum n (gauss kernel_size sigma).
Proof. apply rsum_pos; [apply n_pos | intros; apply gauss_pos]. Qed.

Lemma gauss_mirror (i : nat) :
  (i < n)%nat ->
  gauss kernel_size sigma (n - 1 - i) = gauss kernel_size sigma i.
Proof.
  intros Hi. rewrite !gauss_unnormalised by lia.
  unfold unnormalised. rewrite sample_point_mirror by assumption.
  f_equal. unfold Rdiv. ring.
Qed.

Lemma weight_pos (i : nat) : 0 < weight kernel_size sigma i.
Proof.
  unfold weight. apply Rdiv_lt_0_compat; [apply gauss_pos | apply gauss_sum_pos].
Qed.

Lemma weight_sum : rsum n (weight kernel_size sigma) = 1.
Proof.
  unfold weight. rewrite rsum_div.
  pose proof gauss_sum_pos. field. lra.
Qed.

Lemma weight_mirror (i : nat) :
  (i < n)%nat -> weight kernel_size sigma (n - 1 - i) = weight kernel_size sigma i.
Proof. intros Hi. unfold weight. rewrite gauss_mirror by assumption. reflexivity. Qed.

End Kernel1D.

(** ** The 2-D kernel *)

Lemma create_2d_returns (k0 k1 : Z) (s0 s1 : R) (ks : list Z) (ss : list R) :
  (0 <= k0)%Z -> (0 <= k1)%Z ->
  create_2d_gaussian_kernel (IntList (k0 :: k1 :: ks)) (FloatList (s0 :: s1 :: ss))
  = Ok (kernel2d k0 k1 s0 s1).
Proof.
  intros H0 H1. unfold create_2d_gaussian_kernel. simpl.
  rewrite (create_1d_returns k0 s0 H0). simpl.
  rewrite (create_1d_returns k1 s1 H1). reflexivity.
Qed.

Lemma kernel2d_item (k0 k1 : Z) (s0 s1 : R) (i j : nat) :
  item (kernel2d k0 k1 s0 s1) [i; j] = weight k0 s0 i * weight k1 s1 j.
Proof. unfold kernel2d, weight. simpl. lra. Qed.

Lemma kernel2d_pos (k0 k1 : Z) (s0 s1 : R) (i j : nat) :
  (1 <= k0)%Z -> (1 <= k1)%Z -> 0 < item (kernel2d k0 k1 s0 s1) [i; j].
Proof.
  intros H0 H1. rewrite kernel2d_item.
  apply Rmult_lt_0_compat; apply weight_pos; assumption.
Qed.

(** The 2-D kernel sums to 1. *)
Lemma kernel2d_total (k0 k1 : Z) (s0 s1 : R) :
  (1 <= k0)%Z -> (1 <= k1)%Z ->
  rsum (Z.to_nat k0) (fun i =>
    rsum (Z.to_nat k1) (fun j => item (kernel2d k0 k1 s0 s1) [i; j])) = 1.
Proof.
  intros H0 H1.
  rewrite (rsum_ext _ _ (fun i => weight k0 s0 i * rsum (Z.to_nat k1) (weight k1 s1))).
  - rewrite rsum_scal_r, !weight_sum by assumption. lra.
  - intros i _. rewrite <- rsum_scal. apply rsum_ext.
    intros j _. apply kernel2d_item.
Qed.

(** The builder raises no assertion error. *)
Lemma create_2d_no_assertion (ks : int_or_list) (sg : float_or_list) :
  create_2d_gaussian_kernel ks sg <> Raise AssertionError.
Proof.
  unfold create_2d_gaussian_kernel, getitem.
  destruct (int_pair ks) as [|k0 [|k1 ks']];
    destruct (float_pair sg) as [|s0 [|s1 ss']];
    cbn [nth_error bind]; try discriminate;
    (destruct (Z_lt_le_dec k0 0) as [Hk0|Hk0];
     [rewrite create_1d_raises by assumption; discriminate|]);
    rewrite create_1d_returns by assumption;
    unfold Torch.unsqueeze; cbn [bind size length Nat.leb]; try discriminate.
  destruct (Z_lt_le_dec k1 0) as [Hk1|Hk1].
  - rewrite create_1d_raises by assumption. discriminate.
  - rewrite create_1d_returns by assumption. discriminate.
Qed.

(** ** Construction of the engine *)

Section Construction.

Lemma gt0_true (v : R) : 0 < v -> gt0 v = true.
Proof. intros H. unfold gt0. destruct (Rlt_dec 0 v); [reflexivity | contradiction]. Qed.

Lemma gt0_false (v : R) : v <= 0 -> gt0 v = false.
Proof. intros H. unfold gt0. destruct (Rlt_dec 0 v); [lra | reflexivity]. Qed.

Lemma gt0_cases (v : R) : (gt0 v = true /\ 0 < v) \/ (gt0 v = false /\ v <= 0).
Proof.
  destruct (Rlt_le_dec 0 v) as [H|H].
  - left. split; [apply gt0_true|]; assumption.
  - right. split; [apply gt0_false|]; assumption.
Qed.

Lemma init_returns (a : args) (k0 k1 : Z) (s0 s1 : R) (ks : list Z) (ss : list R) :
  int_pair (kernel_size a) = k0 :: k1 :: ks ->
  float_pair (sigma a) = s0 :: s1 :: ss ->
  (0 <= k0)%Z -> (0 <= k1)%Z ->
  0 < data_range a -> 0 < SSIM3D.k1 a -> 0 < k2 a ->
  __init__ a = Ok (engine a k0 k1 s0 s1).
Proof.
  intros Hk Hs H0 H1 Hd Hk1 Hk2. unfold __init__.
  rewrite !gt0_true by assumption. cbn [assert bind].
  rewrite Hk, Hs, create_2d_returns by assumption.
  unfold engine. rewrite Hk. reflexivity.
Qed.

Lemma init_assertion (a : args) :
  __init__ a = Raise AssertionError <->
  data_range a <= 0 \/ SSIM3D.k1 a <= 0 \/ k2 a <= 0.
Proof.
  unfold __init__.
  destruct (gt0_cases (data_range a)) as [[-> Hd]|[-> Hd]];
    cbn [assert bind]; [|split; [intros _; left; exact Hd | reflexivity]].
  destruct (gt0_cases (SSIM3D.k1 a)) as [[-> Hk1]|[-> Hk1]];
    cbn [assert bind]; [|split; [intros _; right; left; exact Hk1 | reflexivity]].
  destruct (gt0_cases (k2 a)) as [[-> Hk2]|[-> Hk2]];
    cbn [assert bind]; [|split; [intros _; right; right; exact Hk2 | reflexivity]].
  split; [|lra].
  intros H. exfalso.
  destruct (create_2d_gaussian_kernel _ _) as [m|e] eqn:E; cbn [bind] in H;
    [discriminate|].
  injection H as ->. exact (create_2d_no_assertion _ _ E).
Qed.

End Construction.

(** ** Shapes and single steps *)

Lemma bshape_rev_app (l : list nat) (a b : nat) :
  Torch.bshape_rev (l ++ [a]) (l ++ [b])
  = option_map (app l) (Torch.bshape_rev [a] [b]).
Proof.
  remember (Torch.bshape_rev [a] [b]) as X eqn:EX.
  induction l as [|c l IH]; simpl app.
  - rewrite <- EX. destruct X; reflexivity.
  - cbn [Torch.bshape_rev]. rewrite IH.
    destruct X as [r|]; simpl; [|reflexivity].
    rewrite Nat.eqb_refl. reflexivity.
Qed.

Lemma broadcast_cons (a b : nat) (tl : list nat) :
  Torch.broadcast_shapes (a :: tl) (b :: tl)
  = if (a =? b)%nat then Some (a :: tl)
    else if (a =? 1)%nat then Some (b :: tl)
    else if (b =? 1)%nat then Some (a :: tl)
    else None.
Proof.
  unfold Torch.broadcast_shapes. cbn [rev]. rewrite bshape_rev_app.
  cbn [Torch.bshape_rev].
  destruct (a =? b)%nat; [|destruct (a =? 1)%nat; [|destruct (b =? 1)%nat]];
    cbn [option_map]; try reflexivity;
    rewrite rev_app_distr, rev_involutive; reflexivity.
Qed.

Lemma broadcast_same (s : list nat) : Torch.broadcast_shapes s s = Some s.
Proof.
  destruct s as [|a tl]; [reflexivity|].
  rewrite broadcast_cons, Nat.eqb_refl. reflexivity.
Qed.

Lemma binop_ok (f : R -> R -> R) (a b : tensor) (sz : list nat) :
  Torch.broadcast_shapes (size a) (size b) = Some sz ->
  Torch.binop f a b
  = Ok {| size := sz;
          item := fun idx => f (item a (Torch.bindex (size a) idx))
                               (item b (Torch.bindex (size b) idx)) |}.
Proof. intros H. unfold Torch.binop. rewrite H. reflexivity. Qed.

Lemma binop_raise (f : R -> R -> R) (a b : tensor) :
  Torch.broadcast_shapes (size a) (size b) = None ->
  Torch.binop f a b = Raise RuntimeError.
Proof. intros H. unfold Torch.binop. rewrite H. reflexivity. Qed.

Lemma squash_id (sz idx : list nat) :
  in_range idx sz -> Torch.squash sz idx = idx.
Proof.
  intros H. induction H as [|i n idx sz Hi _ IH]; [reflexivity|].
  cbn [Torch.squash]. rewrite IH.
  destruct (Nat.eqb_spec n 1) as [->|_]; [|reflexivity].
  f_equal. lia.
Qed.

Lemma bindex_id (sz idx : list nat) :
  in_range idx sz -> Torch.bindex sz idx = idx.
Proof.
  intros H. unfold Torch.bindex.
  rewrite (Forall2_length H), Nat.sub_diag. cbn [skipn].
  apply squash_id, H.
Qed.

Lemma in_range5 (b c t h w B C T H W : nat) :
  (b < B)%nat -> (c < C)%nat -> (t < T)%nat -> (h < H)%nat -> (w < W)%nat ->
  in_range [b; c; t; h; w] [B; C; T; H; W].
Proof. intros. repeat constructor; assumption. Qed.

Lemma in_range5_inv (idx : list nat) (B C T H W : nat) :
  in_range idx [B; C; T; H; W] ->
  exists b c t h w, idx = [b; c; t; h; w] /\
    (b < B)%nat /\ (c < C)%nat /\ (t < T)%nat /\ (h < H)%nat /\ (w < W)%nat.
Proof.
  intros H0. unfold in_range in H0.
  repeat match goal with
         | H : Forall2 _ _ (_ :: _) |- _ => inversion H; subst; clear H
         | H : Forall2 _ _ [] |- _ => inversion H; subst; clear H
         end.
  do 5 eexists. split; [reflexivity|]. repeat split; assumption.
Qed.

Lemma expand_kernel (K : tensor) (C kh kw : nat) :
  size K = [kh; kw] ->
  Torch.expand [Z.of_nat C; 1; 1; -1; -1]%Z K
  = Ok {| size := [C; 1; 1; kh; kw]%nat;
          item := fun idx => item K (Torch.squash (size K) (skipn 3 idx)) |}.
Proof.
  intros HK. unfold Torch.expand. rewrite HK.
  cbn [length Nat.ltb Nat.leb Nat.sub firstn skipn forallb Torch.expand_tail].
  replace (0 <=? Z.of_nat C)%Z with true by (symmetry; apply Z.leb_le; lia).
  cbn. rewrite Nat2Z.id. reflexivity.
Qed.

Lemma cat5_ok (a b c d e : tensor) (na nb nc nd ne : nat) (tl : list nat) :
  size a = na :: tl -> size b = nb :: tl -> size c = nc :: tl ->
  size d = nd :: tl -> size e = ne :: tl ->
  Torch.cat [a; b; c; d; e]
  = Ok {| size := (na + (nb + (nc + (nd + (ne + 0)))))%nat :: tl;
          item := fun idx => Torch.cat_item [a; b; c; d; e] (hd O idx) (List.tl idx) |}.
Proof.
  intros Ha Hb Hc Hd He. unfold Torch.cat. rewrite Ha.
  cbn [forallb fold_right]. rewrite Ha, Hb, Hc, Hd, He. cbn [hd].
  destruct (list_eq_dec Nat.eq_dec tl tl) as [_|Hne]; [|contradiction].
  reflexivity.
Qed.

Lemma slice0_ok (lo hi : nat) (t : tensor) (n m : nat) (rest : list nat) :
  size t = n :: rest -> (Nat.min hi n - Nat.min lo n)%nat = m ->
  Torch.slice0 lo hi t
  = Ok {| size := m :: rest;
          item := fun idx => item t ((lo + hd O idx)%nat :: tl idx) |}.
Proof. intros Ht Hm. unfold Torch.slice0. rewrite Ht, Hm. reflexivity. Qed.

Lemma conv3d_check (input weight : tensor) (N C T H W kh kw : nat) (ph pw : Z) :
  size input = [N; C; T; H; W] -> size weight = [C; 1; 1; kh; kw]%nat ->
  Torch.conv3d input weight [0; ph; pw]%Z C
  = if fits C T H W kh kw ph pw
    then Ok (conv3d_out input weight N C T H W kh kw ph pw)
    else Raise RuntimeError.
Proof.
  intros Hi Hw. unfold Torch.conv3d, conv3d_out. rewrite Hi, Hw.
  rewrite Nat.Div0.mod_same, Nat.mul_1_l, !Nat.eqb_refl.
  change (0 <=? 0)%Z with true. change (1 <=? 1)%nat with true.
  change (Z.to_nat 0) with O. rewrite Nat.mul_0_r, Nat.add_0_r.
  cbn [andb]. rewrite !andb_true_r.
  unfold fits.
  destruct (0 <=? ph)%Z; [|reflexivity].
  destruct (0 <=? pw)%Z; [|reflexivity].
  destruct (1 <=? C)%nat; [|reflexivity].
  destruct (1 <=? kh)%nat; [|reflexivity].
  destruct (1 <=? kw)%nat; [|reflexivity].
  destruct (Nat.leb_spec 1 T) as [HT|HT]; [|reflexivity].
  destruct (1 <=? H)%nat; [|reflexivity].
  destruct (1 <=? W)%nat; [|reflexivity].
  cbn [andb].
  destruct (kh <=? H + 2 * Z.to_nat ph)%nat; [|reflexivity].
  destruct (kw <=? W + 2 * Z.to_nat pw)%nat; [|reflexivity].
  cbn [andb]. replace (T - 1 + 1)%nat with T by lia. reflexivity.
Qed.

Lemma pad0_ext (ph pw H W : nat) (v v' : nat -> nat -> R) (a b : nat) :
  (forall h w, (h < H)%nat -> (w < W)%nat -> v h w = v' h w) ->
  pad0 ph pw H W v a b = pad0 ph pw H W v' a b.
Proof.
  intros E. unfold pad0.
  destruct (Nat.leb_spec ph a); [|reflexivity].
  destruct (Nat.ltb_spec a (ph + H)); [|reflexivity].
  destruct (Nat.leb_spec pw b); [|reflexivity].
  destruct (Nat.ltb_spec b (pw + W)); [|reflexivity].
  cbn [andb]. apply E; lia.
Qed.

Lemma conv3d_out_item (input weight K : tensor) (N C T H W kh kw : nat)
  (ph pw : Z) (v : nat -> nat -> R) (n c t h w : nat) :
  (c < C)%nat -> (t < T)%nat ->
  (forall i j, (i < kh)%nat -> (j < kw)%nat ->
     item weight [c; O; O; i; j] = item K [i; j]) ->
  (forall h' w', (h' < H)%nat -> (w' < W)%nat ->
     item input [n; c; t; h'; w'] = v h' w') ->
  item (conv3d_out input weight N C T H W kh kw ph pw) [n; c; t; h; w]
  = rsum kh (fun i => rsum kw (fun j =>
      item K [i; j]
      * pad0 (Z.to_nat ph) (Z.to_nat pw) H W v (h + i) (w + j))).
Proof.
  intros Hc Ht HK Hv. unfold conv3d_out. cbn [item nth].
  rewrite rsum_one, rsum_one.
  apply rsum_ext. intros i Hi. apply rsum_ext. intros j Hj.
  rewrite HK by assumption. f_equal.
  unfold Torch.padded, pad0.
  replace (c / (C / C) * 1 + 0)%nat with c.
  2:{ rewrite Nat.div_same by lia. rewrite Nat.div_1_r. lia. }
  replace (0 <=? t + 0)%nat with true by (symmetry; apply Nat.leb_le; lia).
  replace (t + 0 <? 0 + T)%nat with true by (symmetry; apply Nat.ltb_lt; lia).
  cbn [andb].
  destruct (Nat.leb_spec (Z.to_nat ph) (h + i)); [|reflexivity].
  destruct (Nat.ltb_spec (h + i) (Z.to_nat ph + H)); [|reflexivity].
  destruct (Nat.leb_spec (Z.to_nat pw) (w + j)); [|reflexivity].
  destruct (Nat.ltb_spec (w + j) (Z.to_nat pw + W)); [|reflexivity].
  cbn [andb]. replace (t + 0 - 0)%nat with t by lia.
  apply Hv; lia.
Qed.

Lemma cat_item_here (t0 : tensor) (ts : list tensor) (i : nat) (rest : list nat) :
  (i < hd O (size t0))%nat ->
  Torch.cat_item (t0 :: ts) i rest = item t0 (i :: rest).
Proof.
  intros Hi. cbn [Torch.cat_item].
  destruct (Nat.ltb_spec i (hd O (size t0))); [reflexivity | lia].
Qed.

Lemma cat_item_skip (t0 : tensor) (ts : list tensor) (n i : nat) (rest : list nat) :
  hd O (size t0) = n ->
  Torch.cat_item (t0 :: ts) (n + i) rest = Torch.cat_item ts i rest.
Proof.
  intros Hn. cbn [Torch.cat_item]. rewrite Hn.
  destruct (Nat.ltb_spec (n + i) n); [lia|].
  f_equal. lia.
Qed.

Lemma local_mean_eq (K : tensor) (ph pw : nat) (v : tensor)
  (B C T H W kh kw b c t h w : nat) :
  size K = [kh; kw] -> size v = [B; C; T; H; W] ->
  local_mean K ph pw v [b; c; t; h; w]
  = rsum kh (fun i => rsum kw (fun j =>
      item K [i; j]
      * pad0 ph pw H W (fun h' w' => item v [b; c; t; h'; w']) (h + i) (w + j))).
Proof. intros HK Hv. unfold local_mean. rewrite HK, Hv. reflexivity. Qed.

Lemma forward_combine (self : SSIM3D.t) (x y : tensor) :
  forward self x y =
  (batch_size <- Torch.size_at x 0 ;;
   num_channels <- Torch.size_at x 1 ;;
   kernel <- Torch.expand [Z.of_nat num_channels; 1; 1; -1; -1]%Z (kernel self) ;;
   xy <- Torch.mul x y ;;
   kernal_inputs <- Torch.cat [x; y; Torch.pow2 x; Torch.pow2 y; xy] ;;
   kernel_outputs <- Torch.conv3d kernal_inputs kernel (pad self) num_channels ;;
   combine self batch_size kernel_outputs).
Proof. reflexivity. Qed.

Ltac same_shape_step sz :=
  match goal with
  | |- context [Torch.binop ?f ?a ?b] =>
      rewrite (binop_ok f a b sz) by (cbn [size Torch.tmap Torch.pow2 Torch.smul Torch.sadd]; apply broadcast_same);
      cbn [bind]
  end.

Lemma combine_ok (e : SSIM3D.t) (B C T H W : nat) (ko : tensor) :
  size ko = [(B + (B + (B + (B + (B + 0)))))%nat; C; T; H; W] ->
  exists out, combine e B ko = Ok out /\ size out = [B; C; T; H; W] /\
    forall b c t h w, (b < B)%nat -> (c < C)%nat -> (t < T)%nat ->
      (h < H)%nat -> (w < W)%nat ->
      item out [b; c; t; h; w]
      = ssim (c1 e) (c2 e)
          (item ko [0 * B + b; c; t; h; w]%nat) (item ko [1 * B + b; c; t; h; w]%nat)
          (item ko [2 * B + b; c; t; h; w]%nat) (item ko [3 * B + b; c; t; h; w]%nat)
          (item ko [4 * B + b; c; t; h; w]%nat).
Proof.
  intros Hko. unfold combine.
  rewrite (slice0_ok (0 * B) _ ko _ B _ Hko) by lia. cbn [bind].
  rewrite (slice0_ok (1 * B) _ ko _ B _ Hko) by lia. cbn [bind].
  rewrite (slice0_ok (2 * B) _ ko _ B _ Hko) by lia. cbn [bind].
  rewrite (slice0_ok (3 * B) _ ko _ B _ Hko) by lia. cbn [bind].
  rewrite (slice0_ok (4 * B) _ ko _ B _ Hko) by lia. cbn [bind].
  unfold Torch.mul, Torch.sub, Torch.add, Torch.div.
  do 12 same_shape_step [B; C; T; H; W].
  eexists. split; [reflexivity|]. split; [reflexivity|].
  intros b c t h w Hb Hc Ht Hh Hw.
  pose proof (in_range5 _ _ _ _ _ _ _ _ _ _ Hb Hc Ht Hh Hw) as Hin.
  cbn [item size Torch.tmap Torch.pow2 Torch.smul Torch.sadd].
  rewrite !(bindex_id _ _ Hin).
  cbn [hd tl]. unfold ssim. f_equal; ring.
Qed.

Lemma forward_feasible (e : SSIM3D.t) (x y : tensor) (B C T H W kh kw : nat) (ph pw : Z) :
  size x = [B; C; T; H; W] -> size y = [B; C; T; H; W] ->
  size (kernel e) = [kh; kw] -> pad e = [0; ph; pw]%Z ->
  fits C T H W kh kw ph pw = true ->
  exists out, forward e x y = Ok out /\
    size out = [B; C; T; out_extent H kh ph; out_extent W kw pw] /\
    forall idx, in_range idx (size out) ->
      item out idx
      = ssim (c1 e) (c2 e)
          (local_mean (kernel e) (Z.to_nat ph) (Z.to_nat pw) x idx)
          (local_mean (kernel e) (Z.to_nat ph) (Z.to_nat pw) y idx)
          (local_mean (kernel e) (Z.to_nat ph) (Z.to_nat pw) (square x) idx)
          (local_mean (kernel e) (Z.to_nat ph) (Z.to_nat pw) (square y) idx)
          (local_mean (kernel e) (Z.to_nat ph) (Z.to_nat pw) (product x y) idx).
Proof.
  intros Hx Hy Hk Hp Hfit. rewrite forward_combine.
  unfold Torch.size_at. rewrite Hx. cbn [nth_error bind].
  rewrite (expand_kernel _ C kh kw Hk). cbn [bind].
  unfold Torch.mul.
  rewrite (binop_ok _ x y [B; C; T; H; W]) by (rewrite Hx, Hy; apply broadcast_same).
  cbn [bind].
  rewrite (cat5_ok _ _ _ _ _ B B B B B [C; T; H; W])
    by (cbn [size Torch.pow2 Torch.tmap]; first [assumption | reflexivity]).
  cbn [bind]. rewrite Hp.
  rewrite (conv3d_check _ _ (B + (B + (B + (B + (B + 0)))))%nat C T H W kh kw ph pw)
    by reflexivity.
  rewrite Hfit. cbn [bind].
  match goal with
  | |- context [combine e B ?ko] =>
      destruct (combine_ok e B C T (out_extent H kh ph) (out_extent W kw pw) ko eq_refl)
        as (out & Hout & Hsz & Hitem)
  end.
  exists out. split; [exact Hout|]. split; [exact Hsz|].
  intros idx Hin. rewrite Hsz in Hin.
  destruct (in_range5_inv _ _ _ _ _ _ Hin) as (b & c & t & h & w & -> & Hb & Hc & Ht & Hh & Hw).
  rewrite (Hitem b c t h w Hb Hc Ht Hh Hw). clear Hitem Hout.
  assert (HK : forall i j, (i < kh)%nat -> (j < kw)%nat ->
            item {| size := [C; 1; 1; kh; kw]%nat;
                    item := fun idx => item (kernel e)
                              (Torch.squash (size (kernel e)) (skipn 3 idx)) |}
                 [c; O; O; i; j] = item (kernel e) [i; j]).
  { intros i j Hi Hj. cbn [item skipn]. rewrite Hk, squash_id; [reflexivity|].
    repeat constructor; assumption. }
  rewrite !(local_mean_eq _ _ _ _ B C T H W kh kw)
    by (cbn [size square product]; assumption).
  f_equal;
    (apply conv3d_out_item; [assumption | assumption | exact HK |]);
    intros h' w' Hh' Hw'; cbn [item hd tl].
  - change (0 * B + b)%nat with b.
    apply cat_item_here. rewrite Hx. exact Hb.
  - replace (1 * B + b)%nat with (B + b)%nat by lia.
    rewrite cat_item_skip by (rewrite Hx; reflexivity).
    apply cat_item_here. rewrite Hy. exact Hb.
  - replace (2 * B + b)%nat with (B + (B + b))%nat by lia.
    rewrite cat_item_skip by (rewrite Hx; reflexivity).
    rewrite cat_item_skip by (rewrite Hy; reflexivity).
    apply cat_item_here. cbn [size square]. rewrite Hx. exact Hb.
  - replace (3 * B + b)%nat with (B + (B + (B + b)))%nat by lia.
    rewrite cat_item_skip by (rewrite Hx; reflexivity).
    rewrite cat_item_skip by (rewrite Hy; reflexivity).
    rewrite cat_item_skip by (cbn [size Torch.pow2 Torch.tmap]; rewrite Hx; reflexivity).
    apply cat_item_here. cbn [size square]. rewrite Hy. exact Hb.
  - replace (4 * B + b)%nat with (B + (B + (B + (B + b))))%nat by lia.
    rewrite cat_item_skip by (rewrite Hx; reflexivity).
    rewrite cat_item_skip by (rewrite Hy; reflexivity).
    rewrite cat_item_skip by (cbn [size Torch.pow2 Torch.tmap]; rewrite Hx; reflexivity).
    rewrite cat_item_skip by (cbn [size Torch.pow2 Torch.tmap]; rewrite Hy; reflexivity).
    rewrite cat_item_here by exact Hb.
    cbn [item]. rewrite Hx, Hy.
    rewrite !bindex_id by (apply in_range5; assumption). reflexivity.
Qed.

Lemma forward_infeasible (e : SSIM3D.t) (x y : tensor) (B C T H W kh kw : nat) (ph pw : Z) :
  size x = [B; C; T; H; W] -> size y = [B; C; T; H; W] ->
  size (kernel e) = [kh; kw] -> pad e = [0; ph; pw]%Z ->
  fits C T H W kh kw ph pw = false ->
  forward e x y = Raise RuntimeError.
Proof.
  intros Hx Hy Hk Hp Hfit. rewrite forward_combine.
  unfold Torch.size_at. rewrite Hx. cbn [nth_error bind].
  rewrite (expand_kernel _ C kh kw Hk). cbn [bind].
  unfold Torch.mul.
  rewrite (binop_ok _ x y [B; C; T; H; W]) by (rewrite Hx, Hy; apply broadcast_same).
  cbn [bind].
  rewrite (cat5_ok _ _ _ _ _ B B B B B [C; T; H; W])
    by (cbn [size Torch.pow2 Torch.tmap]; first [assumption | reflexivity]).
  cbn [bind]. rewrite Hp.
  rewrite (conv3d_check _ _ (B + (B + (B + (B + (B + 0)))))%nat C T H W kh kw ph pw)
    by reflexivity.
  rewrite Hfit. reflexivity.
Qed.

Section Variance.

Variables (n m : nat) (K p : nat -> nat -> R).

Lemma rsum2_ext (f g : nat -> nat -> R) :
  (forall i j, (i < n)%nat -> (j < m)%nat -> f i j = g i j) ->
  rsum n (fun i => rsum m (fun j => f i j)) = rsum n (fun i => rsum m (fun j => g i j)).
Proof.
  intros E. apply rsum_ext. intros i Hi. apply rsum_ext. intros j Hj.
  apply E; assumption.
Qed.

Lemma rsum2_lin (a b : R) (f g : nat -> nat -> R) :
  rsum n (fun i => rsum m (fun j => a * f i j + b * g i j))
  = a * rsum n (fun i => rsum m (fun j => f i j))
    + b * rsum n (fun i => rsum m (fun j => g i j)).
Proof.
  rewrite <- !rsum_scal, <- rsum_plus. apply rsum_ext. intros i _.
  rewrite <- !rsum_scal, <- rsum_plus. reflexivity.
Qed.

Lemma rsum2_nonneg (f : nat -> nat -> R) :
  (forall i j, (i < n)%nat -> (j < m)%nat -> 0 <= f i j) ->
  0 <= rsum n (fun i => rsum m (fun j => f i j)).
Proof.
  intros Hf. apply rsum_nonneg. intros i Hi. apply rsum_nonneg. intros j Hj.
  apply Hf; assumption.
Qed.

Hypothesis K_nonneg : forall i j, (i < n)%nat -> (j < m)%nat -> 0 <= K i j.
Hypothesis K_total : rsum n (fun i => rsum m (fun j => K i j)) = 1.

(** The weighted mean of squares dominates the square of the weighted
    mean: the local variance is not negative. *)
Lemma weighted_variance_nonneg :
  rsum n (fun i => rsum m (fun j => K i j * p i j)) ^ 2
  <= rsum n (fun i => rsum m (fun j => K i j * p i j ^ 2)).
Proof.
  set (mu := rsum n (fun i => rsum m (fun j => K i j * p i j))).
  set (q := rsum n (fun i => rsum m (fun j => K i j * p i j ^ 2))).
  assert (H : 0 <= rsum n (fun i => rsum m (fun j => K i j * (p i j - mu) ^ 2))).
  { apply rsum2_nonneg. intros i j Hi Hj.
    apply Rmult_le_pos; [apply K_nonneg; assumption | apply pow2_ge_0]. }
  rewrite (rsum2_ext _ (fun i j => 1 * (K i j * p i j ^ 2)
                          + 1 * ((- 2 * mu) * (K i j * p i j) + mu ^ 2 * K i j))) in H
    by (intros; ring).
  rewrite rsum2_lin, rsum2_lin, K_total in H.
  fold mu q in H. nra.
Qed.

End Variance.

Lemma pad0_sq (ph pw H W : nat) (v : nat -> nat -> R) (a b : nat) :
  pad0 ph pw H W (fun h w => v h w ^ 2) a b = pad0 ph pw H W v a b ^ 2.
Proof.
  unfold pad0.
  destruct ((ph <=? a)%nat && (a <? ph + H)%nat && (pw <=? b)%nat && (b <? pw + W)%nat);
    [reflexivity | ring].
Qed.

Lemma ssim_self (c1 c2 u q : R) :
  0 < c1 -> 0 < c2 -> u ^ 2 <= q -> ssim c1 c2 u u q q q = 1.
Proof.
  intros H1 H2 Hv. unfold ssim.
  assert (0 < u ^ 2 + u ^ 2 + c1) by nra.
  assert (0 < q - u ^ 2 + (q - u ^ 2) + c2) by nra.
  field. split; lra.
Qed.

Lemma local_mean_ext (K : tensor) (ph pw : nat) (v v' : tensor) (idx : list nat) :
  size v = size v' ->
  (forall i, item v i = item v' i) ->
  local_mean K ph pw v idx = local_mean K ph pw v' idx.
Proof.
  intros Hs Hi. unfold local_mean. rewrite Hs.
  apply rsum_ext. intros i _. apply rsum_ext. intros j _.
  f_equal. apply pad0_ext. intros. apply Hi.
Qed.

Lemma ssim_sym (c1 c2 ux uy uxx uyy uxy : R) :
  ssim c1 c2 ux uy uxx uyy uxy = ssim c1 c2 uy ux uyy uxx uxy.
Proof. unfold ssim. f_equal; ring. Qed.

(** What a successful construction tells about its arguments. *)
Lemma init_inv (a : args) (e : SSIM3D.t) :
  __init__ a = Ok e ->
  exists k0 k1 ks s0 s1 ss,
    int_pair (kernel_size a) = k0 :: k1 :: ks /\
    float_pair (sigma a) = s0 :: s1 :: ss /\
    (0 <= k0)%Z /\ (0 <= k1)%Z /\
    0 < data_range a /\ 0 < SSIM3D.k1 a /\ 0 < k2 a /\
    e = engine a k0 k1 s0 s1.
Proof.
  unfold __init__.
  destruct (gt0_cases (data_range a)) as [[-> Hd]|[-> Hd]];
    cbn [assert bind]; [|discriminate].
  destruct (gt0_cases (SSIM3D.k1 a)) as [[-> Hk1]|[-> Hk1]];
    cbn [assert bind]; [|discriminate].
  destruct (gt0_cases (k2 a)) as [[-> Hk2]|[-> Hk2]];
    cbn [assert bind]; [|discriminate].
  unfold create_2d_gaussian_kernel, getitem. cbn [int_pair float_pair].
  destruct (int_pair (kernel_size a)) as [|k0 [|k1 ks]] eqn:Ek;
    destruct (float_pair (sigma a)) as [|s0 [|s1 ss]] eqn:Es;
    cbn [nth_error bind]; try discriminate;
    (destruct (Z_lt_le_dec k0 0) as [Hk0|Hk0];
     [rewrite create_1d_raises by assumption; discriminate|]);
    rewrite create_1d_returns by assumption;
    unfold Torch.unsqueeze; cbn [bind size length Nat.leb]; try discriminate.
  destruct (Z_lt_le_dec k1 0) as [Hk1'|Hk1'].
  { rewrite create_1d_raises by assumption. discriminate. }
  rewrite create_1d_returns by assumption. cbn [bind].
  intros H. exists k0, k1, ks, s0, s1, ss.
  repeat (split; [first [reflexivity | assumption]|]).
  unfold Torch.matmul in H. cbn [size Nat.eqb bind] in H.
  injection H as <-. unfold engine. rewrite Ek. reflexivity.
Qed.

(** Engines built from a pair of sizes. *)
Lemma engine_kernel_size (a : args) (k0 k1 : Z) (s0 s1 : R) :
  size (kernel (engine a k0 k1 s0 s1)) = [Z.to_nat k0; Z.to_nat k1].
Proof. reflexivity. Qed.

Lemma engine_pad (a : args) (k0 k1 : Z) (s0 s1 : R) :
  int_pair (kernel_size a) = [k0; k1] ->
  pad (engine a k0 k1 s0 s1) = [0; (k0 - 1) / 2; (k1 - 1) / 2]%Z.
Proof. intros E. unfold engine. cbn [pad]. rewrite E. reflexivity. Qed.

Lemma engine_c1_pos (a : args) (k0 k1 : Z) (s0 s1 : R) :
  0 < data_range a -> 0 < SSIM3D.k1 a -> 0 < c1 (engine a k0 k1 s0 s1).
Proof. intros Hd Hk. cbn [c1 engine]. apply pow_lt. apply Rmult_lt_0_compat; assumption. Qed.

Lemma engine_c2_pos (a : args) (k0 k1 : Z) (s0 s1 : R) :
  0 < data_range a -> 0 < k2 a -> 0 < c2 (engine a k0 k1 s0 s1).
Proof. intros Hd Hk. cbn [c2 engine]. apply pow_lt. apply Rmult_lt_0_compat; assumption. Qed.

(** The local variance under the Gaussian window is not negative. *)
Lemma local_variance_nonneg (k0 k1 : Z) (s0 s1 : R) (ph pw : nat) (v : tensor)
  (B C T H W : nat) (idx : list nat) :
  (1 <= k0)%Z -> (1 <= k1)%Z -> size v = [B; C; T; H; W] ->
  length idx = 5%nat ->
  local_mean (kernel2d k0 k1 s0 s1) ph pw v idx ^ 2
  <= local_mean (kernel2d k0 k1 s0 s1) ph pw (square v) idx.
Proof.
  intros H0 H1 Hv Hl.
  destruct idx as [|b [|c [|t [|h [|w [|]]]]]]; try discriminate.
  rewrite !(local_mean_eq _ _ _ _ B C T H W (Z.to_nat k0) (Z.to_nat k1))
    by (cbn [size square]; first [assumption | reflexivity]).
  cbn [item square].
  eapply Rle_trans.
  - apply (weighted_variance_nonneg _ _
             (fun i j => item (kernel2d k0 k1 s0 s1) [i; j])
             (fun i j => pad0 ph pw H W (fun h' w' => item v [b; c; t; h'; w'])
                           (h + i) (w + j))).
    + intros i j _ _. apply Rlt_le, kernel2d_pos; assumption.
    + apply kernel2d_total; assumption.
  - apply Req_le. apply rsum2_ext. intros i j _ _. f_equal. symmetry.
    apply (pad0_sq ph pw H W (fun h' w' => item v [b; c; t; h'; w'])).
Qed.

Lemma forward_self (a : args) (k0 k1 : Z) (s0 s1 : R) (x : tensor) (B C T H W : nat) :
  int_pair (kernel_size a) = [k0; k1] ->
  (1 <= k0)%Z -> (1 <= k1)%Z ->
  0 < data_range a -> 0 < SSIM3D.k1 a -> 0 < k2 a ->
  size x = [B; C; T; H; W] ->
  fits C T H W (Z.to_nat k0) (Z.to_nat k1) ((k0 - 1) / 2) ((k1 - 1) / 2) = true ->
  exists out, forward (engine a k0 k1 s0 s1) x x = Ok out /\
    size out = [B; C; T; out_extent H (Z.to_nat k0) ((k0 - 1) / 2);
                out_extent W (Z.to_nat k1) ((k1 - 1) / 2)] /\
    forall idx, in_range idx (size out) -> item out idx = 1.
Proof.
  intros Ek H0 H1 Hd Hk1 Hk2 Hx Hfit.
  destruct (forward_feasible (engine a k0 k1 s0 s1) x x B C T H W
              (Z.to_nat k0) (Z.to_nat k1) ((k0 - 1) / 2) ((k1 - 1) / 2)
              Hx Hx (engine_kernel_size _ _ _ _ _) (engine_pad _ _ _ _ _ Ek) Hfit)
    as (out & Hout & Hsz & Hitem).
  exists out. split; [exact Hout|]. split; [exact Hsz|].
  intros idx Hin. rewrite (Hitem idx Hin).
  rewrite (local_mean_ext _ _ _ (product x x) (square x)) by (intros; cbn; try ring; reflexivity).
  apply ssim_self.
  - apply engine_c1_pos; assumption.
  - apply engine_c2_pos; assumption.
  - apply (local_variance_nonneg k0 k1 s0 s1 _ _ x B C T H W); try assumption.
    rewrite Hsz in Hin. apply Forall2_length in Hin. exact Hin.
Qed.

(** ** Calls on inputs of different shapes *)

Lemma expand_raise (req : list Z) (k : tensor) (er : exn) :
  Torch.expand req k = Raise er -> er = RuntimeError.
Proof.
  unfold Torch.expand.
  destruct (_ <? _)%nat; [congruence|].
  destruct (forallb _ _); [|congruence].
  destruct (Torch.expand_tail _ _); congruence.
Qed.

Lemma binop_raise_inv (f : R -> R -> R) (a b : tensor) (er : exn) :
  Torch.binop f a b = Raise er -> er = RuntimeError.
Proof. unfold Torch.binop. destruct (Torch.broadcast_shapes _ _); congruence. Qed.

Lemma conv3d_cases (input weight : tensor) (padding : list Z) (groups N : nat)
  (rest : list nat) :
  size input = N :: rest ->
  Torch.conv3d input weight padding groups = Raise RuntimeError \/
  exists ko rest', Torch.conv3d input weight padding groups = Ok ko /\
                   size ko = N :: rest'.
Proof.
  intros Hi. unfold Torch.conv3d. rewrite Hi.
  destruct rest as [|C [|T [|H [|W [|]]]]]; try (left; reflexivity).
  destruct (size weight) as [|Cout [|Cg [|kT [|kH [|kW [|]]]]]]; try (left; reflexivity).
  destruct padding as [|pt [|ph [|pw [|]]]]; try (left; reflexivity).
  match goal with |- context [if ?c then _ else _] => destruct c end;
    [|left; reflexivity].
  right. eexists. eexists. split; reflexivity.
Qed.

Lemma forward_tail_mismatch (e : SSIM3D.t) (x y : tensor) (B1 B2 C : nat) (tl1 tl2 : list nat) :
  size x = B1 :: C :: tl1 -> size y = B2 :: tl2 -> C :: tl1 <> tl2 ->
  forward e x y = Raise RuntimeError.
Proof.
  intros Hx Hy Hne. rewrite forward_combine.
  unfold Torch.size_at. rewrite Hx. cbn [nth_error bind].
  destruct (Torch.expand _ _) as [k|er] eqn:Ek;
    [|apply expand_raise in Ek; subst er; reflexivity].
  cbn [bind]. unfold Torch.mul.
  destruct (Torch.binop Rmult x y) as [xy|er] eqn:Exy;
    [|apply binop_raise_inv in Exy; subst er; reflexivity].
  cbn [bind]. unfold Torch.cat. rewrite Hx. cbn [forallb]. rewrite Hx, Hy.
  destruct (list_eq_dec Nat.eq_dec (C :: tl1) (C :: tl1)) as [_|N]; [|contradiction].
  destruct (list_eq_dec Nat.eq_dec tl2 (C :: tl1)) as [E|_]; [congruence|].
  reflexivity.
Qed.

Lemma combine_batch_mismatch (e : SSIM3D.t) (B N : nat) (rest : list nat) (ko : tensor) :
  size ko = N :: rest -> N = (3 * B + 2)%nat -> (2 <= B)%nat ->
  combine e B ko = Raise RuntimeError.
Proof.
  intros Hko HN HB. unfold combine.
  rewrite (slice0_ok (0 * B) _ ko _ B _ Hko) by lia. cbn [bind].
  rewrite (slice0_ok (1 * B) _ ko _ B _ Hko) by lia. cbn [bind].
  rewrite (slice0_ok (2 * B) _ ko _ B _ Hko) by lia. cbn [bind].
  rewrite (slice0_ok (3 * B) _ ko _ 2%nat _ Hko) by lia. cbn [bind].
  rewrite (slice0_ok (4 * B) _ ko _ 0%nat _ Hko) by lia. cbn [bind].
  unfold Torch.mul, Torch.sub, Torch.add, Torch.div.
  do 3 same_shape_step (B :: rest).
  destruct (Nat.eq_dec B 2) as [->|HB2].
  - do 2 same_shape_step (2%nat :: rest).
    rewrite binop_raise; [reflexivity|].
    cbn [size]. rewrite broadcast_cons. reflexivity.
  - rewrite binop_raise; [reflexivity|].
    cbn [size]. rewrite broadcast_cons.
    destruct (Nat.eqb_spec 2 B); [lia|].
    destruct (Nat.eqb_spec B 1); [lia|]. reflexivity.
Qed.

Lemma forward_batch_mismatch (e : SSIM3D.t) (x y : tensor) (B1 B2 C : nat) (tl : list nat) :
  size x = B1 :: C :: tl -> size y = B2 :: C :: tl -> B1 <> B2 -> (2 <= B1)%nat ->
  forward e x y = Raise RuntimeError.
Proof.
  intros Hx Hy Hne HB. rewrite forward_combine.
  unfold Torch.size_at. rewrite Hx. cbn [nth_error bind].
  destruct (Torch.expand _ _) as [k|er] eqn:Ek;
    [|apply expand_raise in Ek; subst er; reflexivity].
  cbn [bind]. unfold Torch.mul.
  destruct (Nat.eq_dec B2 1) as [->|HB2].
  - rewrite (binop_ok _ x y (B1 :: C :: tl)).
    2:{ rewrite Hx, Hy, broadcast_cons.
        destruct (Nat.eqb_spec B1 1); [lia|]. reflexivity. }
    cbn [bind].
    rewrite (cat5_ok _ _ _ _ _ B1 1 B1 1 B1 (C :: tl))
      by (cbn [size Torch.pow2 Torch.tmap]; first [assumption | reflexivity]).
    cbn [bind].
    match goal with
    | |- context [Torch.conv3d ?i ?w ?p ?g] =>
        destruct (conv3d_cases i w p g _ _ eq_refl) as [-> | (ko & rest' & -> & Hko)]
    end; [reflexivity|].
    cbn [bind]. apply (combine_batch_mismatch e B1 _ rest' ko Hko); lia.
  - rewrite binop_raise; [reflexivity|].
    rewrite Hx, Hy, broadcast_cons.
    destruct (Nat.eqb_spec B1 B2); [lia|].
    destruct (Nat.eqb_spec B1 1); [lia|].
    destruct (Nat.eqb_spec B2 1); [lia|]. reflexivity.
Qed.

Lemma init_defaults : __init__ defaults = Ok (engine defaults 11 11 1.5 1.5).
Proof.
  apply (init_returns defaults 11 11 1.5 1.5 [] []); try reflexivity; try lia;
    cbn [defaults data_range SSIM3D.k1 k2]; lra.
Qed.

Lemma odd_pad (k : Z) :
  (1 <= k)%Z -> Z.odd k = true ->
  (2 * Z.to_nat ((k - 1) / 2) + 1)%nat = Z.to_nat k.
Proof.
  intros Hk Hodd. apply Z.odd_spec in Hodd. destruct Hodd as [q ->].
  replace (2 * q + 1 - 1)%Z with (q * 2)%Z by lia.
  rewrite Z.div_mul by lia. lia.
Qed.

Lemma odd_ge_1 (k : Z) : (0 <= k)%Z -> Z.odd k = true -> (1 <= k)%Z.
Proof.
  intros Hk Hodd. destruct (Z.eq_dec k 0) as [->|]; [discriminate|lia].
Qed.

Lemma fits_odd (C T H W : nat) (k0 k1 : Z) :
  (1 <= k0)%Z -> (1 <= k1)%Z -> Z.odd k0 = true -> Z.odd k1 = true ->
  (1 <= C)%nat -> (1 <= T)%nat -> (1 <= H)%nat -> (1 <= W)%nat ->
  fits C T H W (Z.to_nat k0) (Z.to_nat k1) ((k0 - 1) / 2) ((k1 - 1) / 2) = true.
Proof.
  intros H0 H1 O0 O1 HC HT HH HW. unfold fits.
  pose proof (odd_pad k0 H0 O0). pose proof (odd_pad k1 H1 O1).
  assert (0 <= (k0 - 1) / 2)%Z by (apply Z.div_pos; lia).
  assert (0 <= (k1 - 1) / 2)%Z by (apply Z.div_pos; lia).
  repeat (apply andb_true_intro; split);
    first [apply Z.leb_le | apply Nat.leb_le]; lia.
Qed.

Lemma out_extent_odd (n : nat) (k : Z) :
  (1 <= k)%Z -> Z.odd k = true -> (1 <= n)%nat ->
  out_extent n (Z.to_nat k) ((k - 1) / 2) = n.
Proof.
  intros Hk Hodd Hn. unfold out_extent. pose proof (odd_pad k Hk Hodd). lia.
Qed.

Lemma forward_bad_pad (e : SSIM3D.t) (x y : tensor) (B C T H W kh kw : nat) :
  size x = [B; C; T; H; W] -> size y = [B; C; T; H; W] ->
  size (kernel e) = [kh; kw] -> length (pad e) <> 3%nat ->
  forward e x y = Raise RuntimeError.
Proof.
  intros Hx Hy Hk Hp. rewrite forward_combine.
  unfold Torch.size_at. rewrite Hx. cbn [nth_error bind].
  rewrite (expand_kernel _ C kh kw Hk). cbn [bind].
  unfold Torch.mul.
  rewrite (binop_ok _ x y [B; C; T; H; W]) by (rewrite Hx, Hy; apply broadcast_same).
  cbn [bind].
  rewrite (cat5_ok _ _ _ _ _ B B B B B [C; T; H; W])
    by (cbn [size Torch.pow2 Torch.tmap]; first [assumption | reflexivity]).
  cbn [bind]. unfold Torch.conv3d. cbn [size].
  destruct (pad e) as [|pt [|ph [|pw [|]]]]; try reflexivity.
  cbn [length] in Hp. contradiction.
Qed.

(** Swapping the inputs of one shape. *)
Lemma forward_swap (e : SSIM3D.t) (x y : tensor) (B C T H W kh kw : nat) :
  size x = [B; C; T; H; W] -> size y = [B; C; T; H; W] ->
  size (kernel e) = [kh; kw] -> (exists p, pad e = 0%Z :: p) ->
  req (forward e x y) (forward e y x).
Proof.
  intros Hx Hy Hk [p Hp].
  destruct p as [|ph [|pw [|]]];
    try (rewrite !(forward_bad_pad e _ _ B C T H W kh kw)
           by (first [assumption | rewrite Hp; cbn [length]; lia]);
         reflexivity).
  destruct (fits C T H W kh kw ph pw) eqn:Hfit.
  - destruct (forward_feasible e x y B C T H W kh kw ph pw Hx Hy Hk Hp Hfit)
      as (o1 & -> & Hs1 & Hi1).
    destruct (forward_feasible e y x B C T H W kh kw ph pw Hy Hx Hk Hp Hfit)
      as (o2 & -> & Hs2 & Hi2).
    cbn [req]. split; [congruence|].
    intros idx Hin. rewrite (Hi1 idx Hin).
    rewrite Hi2 by (rewrite Hs2, <- Hs1; exact Hin).
    rewrite ssim_sym. f_equal.
    apply local_mean_ext; [cbn [size product]; congruence|].
    intros i. cbn [item product]. ring.
  - rewrite !(forward_infeasible e _ _ B C T H W kh kw ph pw) by assumption.
    reflexivity.
Qed.

(** ** The kernels with the underflow of float32 *)

Lemma exp_f32_nonneg (t : R) : 0 <= exp_f32 t.
Proof.
  unfold exp_f32. destruct (Rlt_dec t (-104)); [lra | left; apply exp_pos].
Qed.

Lemma exp_f32_zero (t : R) : t < -104 -> exp_f32 t = 0.
Proof. intros H. unfold exp_f32. destruct (Rlt_dec t (-104)); [reflexivity | contradiction]. Qed.

Lemma exp_f32_pos (t : R) : -104 <= t -> 0 < exp_f32 t.
Proof.
  intros H. unfold exp_f32. destruct (Rlt_dec t (-104)); [lra | apply exp_pos].
Qed.

Lemma rsum_pos_at (n : nat) (f : nat -> R) (c : nat) :
  (c < n)%nat -> (forall i, (i < n)%nat -> 0 <= f i) -> 0 < f c -> 0 < rsum n f.
Proof.
  induction n as [|n IH]; intros Hc Hf Hp; [lia|]. cbn [rsum].
  assert (0 <= f n) by (apply Hf; lia).
  assert (0 <= rsum n f) by (apply rsum_nonneg; intros; apply Hf; lia).
  destruct (Nat.eq_dec c n) as [->|Hne]; [lra|].
  assert (0 < rsum n f) by (apply IH; [lia | intros; apply Hf; lia | exact Hp]).
  lra.
Qed.

Lemma create_1d_f32_returns (kernel_size : Z) (sigma : R) :
  (0 <= kernel_size)%Z ->
  create_1d_gaussian_kernel_f32 kernel_size sigma =
  Ok {| size := [Z.to_nat kernel_size];
        item := fun idx => gauss_f32 kernel_size sigma (hd O idx)
                           / rsum (Z.to_nat kernel_size) (gauss_f32 kernel_size sigma) |}.
Proof.
  intros H. unfold create_1d_gaussian_kernel_f32, Torch.linspace.
  destruct (Z.ltb_spec kernel_size 0) as [Hlt|_]; [lia|].
  reflexivity.
Qed.

Lemma create_2d_f32_returns (k0 k1 : Z) (s0 s1 : R) :
  (0 <= k0)%Z -> (0 <= k1)%Z ->
  create_2d_gaussian_kernel_f32 (IntList [k0; k1]) (FloatList [s0; s1])
  = Ok {| size := [Z.to_nat k0; Z.to_nat k1];
          item := fun idx =>
            rsum 1 (fun l => weight_f32 k0 s0 (nth 0 idx O)
                             * weight_f32 k1 s1 (nth 1 idx O)) |}.
Proof.
  intros H0 H1. unfold create_2d_gaussian_kernel_f32. simpl.
  rewrite (create_1d_f32_returns k0 s0 H0). simpl.
  rewrite (create_1d_f32_returns k1 s1 H1). reflexivity.
Qed.

(** The sample point at index [n / 2] is 0 or 1/2. *)
Lemma centre_point (kernel_size : Z) :
  (1 <= kernel_size)%Z ->
  let c := (Z.to_nat kernel_size / 2)%nat in
  (c < Z.to_nat kernel_size)%nat /\ grid kernel_size c ^ 2 <= 1 / 4.
Proof.
  intros Hk c.
  assert (Hc : (c < Z.to_nat kernel_size)%nat).
  { unfold c. apply Nat.div_lt; lia. }
  split; [exact Hc|].
  rewrite grid_sample_point by assumption. unfold sample_point.
  rewrite <- (INR_n kernel_size Hk).
  pose proof (Nat.div_mod_eq (Z.to_nat kernel_size) 2) as E. fold c in E.
  pose proof (Nat.mod_upper_bound (Z.to_nat kernel_size) 2 ltac:(lia)) as Hr.
  set (r := (Z.to_nat kernel_size mod 2)%nat) in *.
  rewrite E, plus_INR, mult_INR. simpl (INR 2).
  assert (Hr' : INR r = 0 \/ INR r = 1).
  { destruct r as [|[|r]]; [left; reflexivity | right; reflexivity | lia]. }
  destruct Hr' as [-> | ->]; nra.
Qed.

Lemma centre_exponent (kernel_size : Z) (sigma : R) :
  (1 <= kernel_size)%Z -> 1 / 25 <= sigma ->
  -104 <= exponent kernel_size sigma (Z.to_nat kernel_size / 2).
Proof.
  intros Hk Hs. destruct (centre_point kernel_size Hk) as [_ Hc].
  unfold exponent, Rdiv. rewrite Rpow_mult_distr.
  assert (P : 0 < sigma) by lra.
  assert (I : 0 < / sigma <= 25).
  { split; [apply Rinv_0_lt_compat; exact P|].
    replace 25 with (/ (1 / 25)) by (field_simplify; lra).
    apply Rinv_le_contravar; lra. }
  assert (0 <= grid kernel_size (Z.to_nat kernel_size / 2) ^ 2) by apply pow2_ge_0.
  assert ((/ sigma) ^ 2 <= 625) by nra.
  assert (0 <= (/ sigma) ^ 2) by apply pow2_ge_0.
  replace (-0.5) with (- (1 / 2)) by lra. nra.
Qed.

Lemma gauss_f32_sum_pos (kernel_size : Z) (sigma : R) :
  (1 <= kernel_size)%Z -> 1 / 25 <= sigma ->
  0 < rsum (Z.to_nat kernel_size) (gauss_f32 kernel_size sigma).
Proof.
  intros Hk Hs.
  apply (rsum_pos_at _ _ (Z.to_nat kernel_size / 2)).
  - apply (centre_point kernel_size Hk).
  - intros i _. apply exp_f32_nonneg.
  - apply exp_f32_pos, centre_exponent; assumption.
Qed.

Lemma weight_f32_facts (kernel_size : Z) (sigma : R) (i : nat) :
  (1 <= kernel_size)%Z -> 1 / 25 <= sigma ->
  0 <= weight_f32 kernel_size sigma i /\
  (exponent kernel_size sigma i < -104 -> weight_f32 kernel_size sigma i = 0) /\
  (-104 <= exponent kernel_size sigma i -> 0 < weight_f32 kernel_size sigma i).
Proof.
  intros Hk Hs. pose proof (gauss_f32_sum_pos kernel_size sigma Hk Hs) as P.
  unfold weight_f32. split; [|split].
  - apply Rmult_le_pos; [apply exp_f32_nonneg | left; apply Rinv_0_lt_compat; exact P].
  - intros H. unfold gauss_f32. rewrite exp_f32_zero by exact H. unfold Rdiv. ring.
  - intros H. apply Rdiv_lt_0_compat; [apply exp_f32_pos; exact H | exact P].
Qed.

(** The ends and the centre of the kernel of size 45 with the default
    deviation. *)
Lemma exponent_45_end : exponent 45 1.5 0 < -104.
Proof.
  unfold exponent, grid, ksize_half. simpl (45 - 1)%Z. simpl (INR 0).
  lra.
Qed.

Lemma exponent_45_centre : exponent 45 1.5 22 = 0.
Proof.
  unfold exponent, grid, ksize_half. simpl (45 - 1)%Z.
  replace (INR 22) with 22 by (simpl; lra).
  lra.
Qed.

(** * The claims *)

(** Claim C1.  For two inputs of one 5-axis shape and an engine built by
    [__init__] from a pair of kernel sizes, on sizes the convolution
    accepts, [forward] returns the map whose element at every index is the
    SSIM formula of the five local means [ux], [uy], [uxx], [uyy], [uxy]:
    the windows of [x], [y], [x ** 2], [y ** 2] and [x * y] under the same
    per-channel Gaussian kernel, zero-padded by [(kernel_size - 1) // 2] on
    height and width and not at all on time. *)
Theorem forward_is_ssim_of_local_means
  (a : args) (e : SSIM3D.t) (x y : tensor) (B C T H W : nat) (k0 k1 : Z) :
  __init__ a = Ok e ->
  int_pair (kernel_size a) = [k0; k1] ->
  size x = [B; C; T; H; W] -> size y = [B; C; T; H; W] ->
  fits C T H W (Z.to_nat k0) (Z.to_nat k1) ((k0 - 1) / 2) ((k1 - 1) / 2) = true ->
  let ph := Z.to_nat ((k0 - 1) / 2) in
  let pw := Z.to_nat ((k1 - 1) / 2) in
  exists out, forward e x y = Ok out /\
    size out = [B; C; T; H + 2 * ph - Z.to_nat k0 + 1;
                W + 2 * pw - Z.to_nat k1 + 1]%nat /\
    size (kernel e) = [Z.to_nat k0; Z.to_nat k1] /\
    c1 e = (SSIM3D.k1 a * data_range a) ^ 2 /\
    c2 e = (k2 a * data_range a) ^ 2 /\
    forall idx, in_range idx (size out) ->
      let ux := local_mean (kernel e) ph pw x idx in
      let uy := local_mean (kernel e) ph pw y idx in
      let uxx := local_mean (kernel e) ph pw (square x) idx in
      let uyy := local_mean (kernel e) ph pw (square y) idx in
      let uxy := local_mean (kernel e) ph pw (product x y) idx in
      item out idx
      = (2 * ux * uy + c1 e) * (2 * (uxy - ux * uy) + c2 e)
        / ((ux ^ 2 + uy ^ 2 + c1 e) * ((uxx - ux ^ 2) + (uyy - uy ^ 2) + c2 e)).
Proof.
  intros Hinit Ek Hx Hy Hfit ph pw.
  destruct (init_inv a e Hinit)
    as (k0' & k1' & ks & s0 & s1 & ss & Ek' & _ & _ & _ & _ & _ & _ & ->).
  rewrite Ek in Ek'. injection Ek' as <- <- <-.
  destruct (forward_feasible (engine a k0 k1 s0 s1) x y B C T H W
              (Z.to_nat k0) (Z.to_nat k1) ((k0 - 1) / 2) ((k1 - 1) / 2)
              Hx Hy (engine_kernel_size _ _ _ _ _) (engine_pad _ _ _ _ _ Ek) Hfit)
    as (out & Hout & Hsz & Hitem).
  exists out. split; [exact Hout|]. split; [exact Hsz|].
  split; [reflexivity|]. split; [reflexivity|]. split; [reflexivity|].
  intros idx Hin. cbv zeta. rewrite (Hitem idx Hin). reflexivity.
Qed.

Lemma forward_is_ssim_of_local_means_witness :
  __init__ defaults = Ok (engine defaults 11 11 1.5 1.5) /\
  exists out,
    forward (engine defaults 11 11 1.5 1.5)
      (full [1; 1; 1; 2; 2]%nat 0.5) (full [1; 1; 1; 2; 2]%nat 0.25) = Ok out /\
    size out = [1; 1; 1; 2; 2]%nat.
Proof.
  split; [exact init_defaults|].
  destruct (forward_is_ssim_of_local_means defaults (engine defaults 11 11 1.5 1.5)
              (full [1; 1; 1; 2; 2]%nat 0.5) (full [1; 1; 1; 2; 2]%nat 0.25)
              1 1 1 2 2 11 11 init_defaults eq_refl eq_refl eq_refl eq_refl)
    as (out & Hout & Hsz & _).
  exists out. split; [exact Hout | exact Hsz].
Defined.

(** Claim C2.  For [kernel_size >= 1] and [sigma > 0] the 1-D builder
    returns [kernel_size] weights: the Gaussian [exp(-0.5 * (t / sigma)^2)]
    at points [t] evenly spaced (one apart) over the inclusive interval from
    [-(kernel_size - 1) / 2] to [(kernel_size - 1) / 2], every one divided
    by the sum of all, so that the weights sum to 1. *)
Theorem create_1d_gaussian_kernel_is_build1D (kernel_size : Z) (sigma : R) :
  (1 <= kernel_size)%Z -> 0 < sigma ->
  exists k, create_1d_gaussian_kernel kernel_size sigma = Ok k /\
    size k = [Z.to_nat kernel_size] /\
    elements k = build1D kernel_size sigma /\
    sample_point kernel_size 0 = - ((IZR kernel_size - 1) / 2) /\
    sample_point kernel_size (Z.to_nat kernel_size - 1) = (IZR kernel_size - 1) / 2 /\
    (forall i, sample_point kernel_size (S i) - sample_point kernel_size i = 1) /\
    Torch.sum k = 1.
Proof.
  intros Hk Hs. rewrite create_1d_returns by lia.
  eexists. split; [reflexivity|]. split; [reflexivity|].
  split; [|split; [|split; [|split]]].
  - unfold elements, build1D. cbn [size hd item].
    apply map_ext_in. intros i Hi. apply in_seq in Hi.
    rewrite gauss_unnormalised by lia. f_equal.
    apply rsum_ext. intros j Hj. apply gauss_unnormalised; lia.
  - apply sample_point_first.
  - apply sample_point_last. exact Hk.
  - apply sample_point_step.
  - unfold Torch.sum. cbn [size item Torch.sum_over hd].
    apply (weight_sum kernel_size sigma Hk).
Qed.

Lemma create_1d_gaussian_kernel_is_build1D_witness :
  (1 <= 3)%Z /\ 0 < 1.5 /\
  exists k, create_1d_gaussian_kernel 3 1.5 = Ok k /\
    size k = [3%nat] /\ elements k = build1D 3 1.5 /\ Torch.sum k = 1.
Proof.
  split; [lia|]. split; [lra|].
  destruct (create_1d_gaussian_kernel_is_build1D 3 1.5 ltac:(lia) ltac:(lra))
    as (k & Hk & Hsz & Hel & _ & _ & _ & Hsum).
  exists k. repeat split; assumption.
Defined.

(** Claim C3.  For inputs of one shape [B, C, T, H, W], odd kernel sizes
    and height and width not below the kernel sizes, a map that [forward]
    returns has the shape of the inputs; with at least one channel and one
    time step [forward] does return. *)
Theorem forward_keeps_shape
  (a : args) (e : SSIM3D.t) (x y : tensor) (B C T H W : nat) (k0 k1 : Z) :
  __init__ a = Ok e ->
  int_pair (kernel_size a) = [k0; k1] ->
  Z.odd k0 = true -> Z.odd k1 = true ->
  size x = [B; C; T; H; W] -> size y = [B; C; T; H; W] ->
  (Z.to_nat k0 <= H)%nat -> (Z.to_nat k1 <= W)%nat ->
  (forall out, forward e x y = Ok out -> size out = [B; C; T; H; W]) /\
  ((1 <= C)%nat -> (1 <= T)%nat ->
   exists out, forward e x y = Ok out /\ size out = [B; C; T; H; W]).
Proof.
  intros Hinit Ek O0 O1 Hx Hy HH HW.
  destruct (init_inv a e Hinit)
    as (k0' & k1' & ks & s0 & s1 & ss & Ek' & _ & P0 & P1 & _ & _ & _ & ->).
  rewrite Ek in Ek'. injection Ek' as <- <- <-.
  pose proof (odd_ge_1 k0 P0 O0) as G0. pose proof (odd_ge_1 k1 P1 O1) as G1.
  assert (HH1 : (1 <= H)%nat) by lia. assert (HW1 : (1 <= W)%nat) by lia.
  assert (Hfeas : fits C T H W (Z.to_nat k0) (Z.to_nat k1)
                    ((k0 - 1) / 2) ((k1 - 1) / 2) = true ->
                  exists out, forward (engine a k0 k1 s0 s1) x y = Ok out /\
                              size out = [B; C; T; H; W]).
  { intros Hfit.
    destruct (forward_feasible (engine a k0 k1 s0 s1) x y B C T H W
                (Z.to_nat k0) (Z.to_nat k1) ((k0 - 1) / 2) ((k1 - 1) / 2)
                Hx Hy (engine_kernel_size _ _ _ _ _) (engine_pad _ _ _ _ _ Ek) Hfit)
      as (out & Hout & Hsz & _).
    exists out. split; [exact Hout|].
    rewrite Hsz, !out_extent_odd by assumption. reflexivity. }
  split.
  - intros out Hout.
    destruct (fits C T H W (Z.to_nat k0) (Z.to_nat k1)
                ((k0 - 1) / 2) ((k1 - 1) / 2)) eqn:Hfit.
    + destruct (Hfeas eq_refl) as (out' & Hout' & Hsz).
      rewrite Hout in Hout'. injection Hout' as ->. exact Hsz.
    + rewrite (forward_infeasible _ x y B C T H W _ _ _ _ Hx Hy
                 (engine_kernel_size _ _ _ _ _) (engine_pad _ _ _ _ _ Ek) Hfit)
        in Hout.
      discriminate.
  - intros HC HT. apply Hfeas. apply fits_odd; assumption.
Qed.

Lemma forward_keeps_shape_witness :
  exists out,
    forward (engine defaults 11 11 1.5 1.5)
      (full [4; 5; 3; 11; 12]%nat 0.5) (full [4; 5; 3; 11; 12]%nat 0.25) = Ok out /\
    size out = [4; 5; 3; 11; 12]%nat.
Proof.
  apply (forward_keeps_shape defaults (engine defaults 11 11 1.5 1.5)
           (full [4; 5; 3; 11; 12]%nat 0.5) (full [4; 5; 3; 11; 12]%nat 0.25)
           4 5 3 11 12 11 11 init_defaults eq_refl eq_refl eq_refl eq_refl eq_refl);
    cbn; lia.
Defined.

(** Claim C4 as stated fails.  The prediction has one batch entry, the
    target two, and the shapes agree elsewhere: the product broadcasts,
    the eight stacked entries are convolved, the five slices of one entry
    each are combined, and a map is returned. *)
Lemma forward_returns_on_batch_mismatch :
  __init__ defaults = Ok (engine defaults 11 11 1.5 1.5) /\
  size (full [1; 1; 1; 1; 1]%nat 0.5) <> size (full [2; 1; 1; 1; 1]%nat 0.5) /\
  exists out,
    forward (engine defaults 11 11 1.5 1.5)
      (full [1; 1; 1; 1; 1]%nat 0.5) (full [2; 1; 1; 1; 1]%nat 0.5) = Ok out /\
    size out = [1; 1; 1; 1; 1]%nat.
Proof.
  split; [exact init_defaults|].
  split; [discriminate|].
  eexists. split; reflexivity.
Qed.

(** Claim C4, as the code has it.  [forward] checks no shapes itself.  When
    the two 5-axis inputs differ in channel, time, height or width extent,
    or differ in batch extent while the prediction has at least two batch
    entries, the call raises torch's [RuntimeError] and returns nothing. *)
Theorem forward_shape_mismatch_raises
  (e : SSIM3D.t) (x y : tensor) (B1 C1 T1 H1 W1 B2 C2 T2 H2 W2 : nat) :
  size x = [B1; C1; T1; H1; W1] -> size y = [B2; C2; T2; H2; W2] ->
  size x <> size y ->
  [C1; T1; H1; W1] <> [C2; T2; H2; W2] \/ (2 <= B1)%nat ->
  forward e x y = Raise RuntimeError.
Proof.
  intros Hx Hy Hne Hcase.
  destruct (list_eq_dec Nat.eq_dec [C1; T1; H1; W1] [C2; T2; H2; W2]) as [E|N].
  - destruct Hcase as [N|HB]; [contradiction|].
    injection E as <- <- <- <-.
    apply (forward_batch_mismatch e x y B1 B2 C1 [T1; H1; W1] Hx Hy); [|exact HB].
    intros ->. apply Hne. congruence.
  - apply (forward_tail_mismatch e x y B1 B2 C1 [T1; H1; W1] [C2; T2; H2; W2] Hx Hy N).
Qed.

Lemma forward_shape_mismatch_raises_witness :
  size (full [2; 1; 1; 1; 1]%nat 0.5) <> size (full [1; 1; 1; 1; 1]%nat 0.5) /\
  forward (engine defaults 11 11 1.5 1.5)
    (full [2; 1; 1; 1; 1]%nat 0.5) (full [1; 1; 1; 1; 1]%nat 0.5)
  = Raise RuntimeError.
Proof.
  split; [discriminate|].
  apply (forward_shape_mismatch_raises (engine defaults 11 11 1.5 1.5)
           (full [2; 1; 1; 1; 1]%nat 0.5) (full [1; 1; 1; 1; 1]%nat 0.5)
           2 1 1 1 1 1 1 1 1 1 eq_refl eq_refl);
    [discriminate | right; lia].
Defined.

(** Claim C5.  [__init__] raises the assertion error exactly when one of
    [data_range], [k1], [k2] is not positive; when all three are positive
    (and the kernel sizes are a pair of non-negative integers, the
    deviations a pair) construction succeeds. *)
Theorem init_checks_positivity (a : args) :
  (__init__ a = Raise AssertionError <->
   data_range a <= 0 \/ SSIM3D.k1 a <= 0 \/ k2 a <= 0) /\
  (forall k0 k1 s0 s1,
     int_pair (kernel_size a) = [k0; k1] -> float_pair (sigma a) = [s0; s1] ->
     (0 <= k0)%Z -> (0 <= k1)%Z ->
     0 < data_range a -> 0 < SSIM3D.k1 a -> 0 < k2 a ->
     exists e, __init__ a = Ok e).
Proof.
  split; [apply init_assertion|].
  intros k0 k1 s0 s1 Ek Es H0 H1 Hd Hk1 Hk2.
  exists (engine a k0 k1 s0 s1).
  apply (init_returns a k0 k1 s0 s1 [] []); assumption.
Qed.

Lemma init_checks_positivity_witness :
  (exists e, __init__ defaults = Ok e) /\
  __init__ {| kernel_size := PyInt 11; sigma := PyFloat 1.5;
              k1 := 0.01; k2 := 0.03; data_range := 0 |}
  = Raise AssertionError.
Proof.
  split.
  - apply (proj2 (init_checks_positivity defaults) 11%Z 11%Z 1.5 1.5);
      first [reflexivity | lia | cbn; lra].
  - apply (proj1 (init_checks_positivity _)). left. cbn. lra.
Defined.

(** Claim C6.  [create_2d_gaussian_kernel] resolves a scalar size or
    deviation [v] to the pair [[v, v]], builds one 1-D kernel per axis and
    returns their outer product, a matrix of [kernel_size_x] rows and
    [kernel_size_y] columns. *)
Theorem create_2d_is_outer_product
  (ks : int_or_list) (sg : float_or_list) (k0 k1 : Z) (s0 s1 : R) :
  int_pair ks = [k0; k1] -> float_pair sg = [s0; s1] ->
  (0 <= k0)%Z -> (0 <= k1)%Z ->
  (forall v, ks = PyInt v -> k0 = v /\ k1 = v) /\
  (forall v, sg = PyFloat v -> s0 = v /\ s1 = v) /\
  exists g0 g1 m,
    create_1d_gaussian_kernel k0 s0 = Ok g0 /\
    create_1d_gaussian_kernel k1 s1 = Ok g1 /\
    create_2d_gaussian_kernel ks sg = Ok m /\
    size m = [Z.to_nat k0; Z.to_nat k1] /\
    forall i j, item m [i; j] = item g0 [i] * item g1 [j].
Proof.
  intros Ek Es H0 H1.
  split; [intros v ->; cbn in Ek; injection Ek as <- <-; split; reflexivity|].
  split; [intros v ->; cbn in Es; injection Es as <- <-; split; reflexivity|].
  rewrite !create_1d_returns by assumption.
  do 3 eexists. split; [reflexivity|]. split; [reflexivity|].
  split.
  - assert (E : create_2d_gaussian_kernel ks sg
                = create_2d_gaussian_kernel (IntList [k0; k1]) (FloatList [s0; s1])).
    { unfold create_2d_gaussian_kernel. rewrite Ek, Es. reflexivity. }
    rewrite E. apply create_2d_returns; assumption.
  - split; [reflexivity|].
    intros i j. rewrite kernel2d_item. reflexivity.
Qed.

Lemma create_2d_is_outer_product_witness :
  exists g m,
    create_1d_gaussian_kernel 3 1.5 = Ok g /\
    create_2d_gaussian_kernel (PyInt 3) (PyFloat 1.5) = Ok m /\
    size m = [3; 3]%nat /\
    forall i j, item m [i; j] = item g [i] * item g [j].
Proof.
  destruct (create_2d_is_outer_product (PyInt 3) (PyFloat 1.5) 3 3 1.5 1.5
              eq_refl eq_refl ltac:(lia) ltac:(lia))
    as (_ & _ & g0 & g1 & m & Hg0 & Hg1 & Hm & Hsz & Hitem).
  exists g0, m. split; [exact Hg0|]. split; [exact Hm|]. split; [exact Hsz|].
  intros i j. rewrite Hitem. f_equal.
  rewrite Hg0 in Hg1. injection Hg1 as ->. reflexivity.
Defined.

(** Claim C7.  For the engine of the default arguments and any non-empty
    input [x], [forward x x] is a map of the shape of [x] whose every
    element is 1 (so within 1e-5 of 1): with equal inputs the factors of
    the numerator are the factors of the denominator, which are positive. *)
Theorem forward_self_similarity (e : SSIM3D.t) (x : tensor) (B C T H W : nat) :
  __init__ defaults = Ok e ->
  size x = [B; C; T; H; W] ->
  (1 <= C)%nat -> (1 <= T)%nat -> (1 <= H)%nat -> (1 <= W)%nat ->
  exists out, forward e x x = Ok out /\
    size out = size x /\
    forall idx, in_range idx (size out) ->
      item out idx = 1 /\ Rabs (item out idx - 1) <= 1 / 100000.
Proof.
  intros Hinit Hx HC HT HH HW.
  destruct (init_inv defaults e Hinit)
    as (k0 & k1 & ks & s0 & s1 & ss & Ek & _ & _ & _ & Hd & Hk1 & Hk2 & ->).
  cbn in Ek. injection Ek as <- <- <-.
  destruct (forward_self defaults 11 11 s0 s1 x B C T H W eq_refl
              ltac:(lia) ltac:(lia) Hd Hk1 Hk2 Hx)
    as (out & Hout & Hsz & Hitem).
  { apply fits_odd; first [assumption | reflexivity | lia]. }
  exists out. split; [exact Hout|]. split.
  - rewrite Hsz, Hx, !out_extent_odd by first [assumption | reflexivity | lia].
    reflexivity.
  - intros idx Hin. rewrite (Hitem idx Hin). split; [reflexivity|].
    replace (1 - 1) with 0 by ring. rewrite Rabs_R0. lra.
Qed.

Lemma forward_self_similarity_witness :
  exists out,
    forward (engine defaults 11 11 1.5 1.5)
      (full [1; 5; 3; 4; 4]%nat 0.5) (full [1; 5; 3; 4; 4]%nat 0.5) = Ok out /\
    size out = [1; 5; 3; 4; 4]%nat /\
    item out [0; 4; 2; 3; 0]%nat = 1.
Proof.
  destruct (forward_self_similarity (engine defaults 11 11 1.5 1.5)
              (full [1; 5; 3; 4; 4]%nat 0.5) 1 5 3 4 4 init_defaults eq_refl
              ltac:(lia) ltac:(lia) ltac:(lia) ltac:(lia))
    as (out & Hout & Hsz & Hitem).
  exists out. split; [exact Hout|]. split; [exact Hsz|].
  apply Hitem. rewrite Hsz. repeat constructor.
Defined.

(** Claim C8.  For two inputs of one 5-axis shape, [forward x y] and
    [forward y x] are the same: both raise the same error or both return
    maps of one shape with equal elements. *)
Theorem forward_symmetric (a : args) (e : SSIM3D.t) (x y : tensor) (B C T H W : nat) :
  __init__ a = Ok e ->
  size x = [B; C; T; H; W] -> size y = [B; C; T; H; W] ->
  req (forward e x y) (forward e y x).
Proof.
  intros Hinit Hx Hy.
  destruct (init_inv a e Hinit)
    as (k0 & k1 & ks & s0 & s1 & ss & _ & _ & _ & _ & _ & _ & _ & ->).
  apply (forward_swap _ x y B C T H W (Z.to_nat k0) (Z.to_nat k1) Hx Hy).
  - reflexivity.
  - eexists. reflexivity.
Qed.

Lemma forward_symmetric_witness :
  req (forward (engine defaults 11 11 1.5 1.5)
         (full [1; 1; 1; 2; 2]%nat 0.5) (full [1; 1; 1; 2; 2]%nat 0.25))
      (forward (engine defaults 11 11 1.5 1.5)
         (full [1; 1; 1; 2; 2]%nat 0.25) (full [1; 1; 1; 2; 2]%nat 0.5)).
Proof.
  exact (forward_symmetric defaults (engine defaults 11 11 1.5 1.5)
           (full [1; 1; 1; 2; 2]%nat 0.5) (full [1; 1; 1; 2; 2]%nat 0.25)
           1 1 1 2 2 init_defaults eq_refl eq_refl).
Defined.

(** Claim C9.  For [kernel_size >= 1] and [sigma > 0] the 1-D kernel has
    [kernel_size] elements, sums to 1 (within 1e-6) and reads the same from
    both ends: [kernel[i] == kernel[n - 1 - i]] for every index [i], that
    is, the list of its elements is its own reverse. *)
Theorem kernel_1d_normalised_and_symmetric (kernel_size : Z) (sigma : R) :
  (1 <= kernel_size)%Z -> 0 < sigma ->
  exists k, create_1d_gaussian_kernel kernel_size sigma = Ok k /\
    size k = [Z.to_nat kernel_size] /\
    length (elements k) = Z.to_nat kernel_size /\
    Rabs (Torch.sum k - 1) <= 1 / 1000000 /\
    elements k = rev (elements k) /\
    forall i, (i < Z.to_nat kernel_size)%nat ->
      item k [i] = item k [(Z.to_nat kernel_size - 1 - i)%nat] /\
      nth_error (elements k) i = Some (item k [i]) /\
      nth_error (elements k) (Z.to_nat kernel_size - 1 - i) = Some (item k [i]).
Proof.
  intros Hk Hs. rewrite create_1d_returns by lia.
  eexists. split; [reflexivity|].
  set (k := {| size := [Z.to_nat kernel_size]; item := _ |}).
  assert (Hsum : Torch.sum k = 1).
  { unfold Torch.sum, k. cbn [size item Torch.sum_over hd].
    pose proof (weight_sum kernel_size sigma Hk) as E. unfold weight in E.
    exact E. }
  assert (Hsym : forall i, (i < Z.to_nat kernel_size)%nat ->
            item k [i] = item k [(Z.to_nat kernel_size - 1 - i)%nat]).
  { intros i Hi. unfold k. cbn [item hd].
    rewrite (gauss_mirror kernel_size sigma Hk i Hi). reflexivity. }
  assert (Hlen : length (elements k) = Z.to_nat kernel_size).
  { unfold elements. rewrite length_map, length_seq. reflexivity. }
  assert (Hnth : forall i, (i < Z.to_nat kernel_size)%nat ->
            nth_error (elements k) i = Some (item k [i])).
  { intros i Hi. unfold elements. cbn [size k hd].
    rewrite nth_error_map, nth_error_seq.
    replace (i <? Z.to_nat kernel_size)%nat with true
      by (symmetry; apply Nat.ltb_lt; exact Hi).
    reflexivity. }
  split; [reflexivity|]. split; [exact Hlen|].
  split; [rewrite Hsum; replace (1 - 1) with 0 by ring; rewrite Rabs_R0; lra|].
  split.
  - apply nth_error_ext. intros i.
    destruct (Nat.lt_ge_cases i (Z.to_nat kernel_size)) as [Hi|Hi].
    + rewrite nth_error_rev, Hlen.
      replace (i <? Z.to_nat kernel_size)%nat with true
        by (symmetry; apply Nat.ltb_lt; exact Hi).
      rewrite !Hnth by lia. f_equal.
      replace (Z.to_nat kernel_size - S i)%nat
        with (Z.to_nat kernel_size - 1 - i)%nat by lia.
      apply Hsym; exact Hi.
    + rewrite !(proj2 (nth_error_None _ _)); [reflexivity | |].
      * rewrite length_rev, Hlen. exact Hi.
      * rewrite Hlen. exact Hi.
  - intros i Hi. split; [apply Hsym; exact Hi|]. split; [apply Hnth; exact Hi|].
    rewrite Hnth by lia. f_equal. symmetry. apply Hsym; exact Hi.
Qed.

Lemma kernel_1d_normalised_and_symmetric_witness :
  (1 <= 11)%Z /\ 0 < 1.5 /\
  exists k, create_1d_gaussian_kernel 11 1.5 = Ok k /\
    size k = [11%nat] /\ item k [2%nat] = item k [8%nat].
Proof.
  split; [lia|]. split; [lra|].
  destruct (kernel_1d_normalised_and_symmetric 11 1.5 ltac:(lia) ltac:(lra))
    as (k & Hk & Hsz & _ & _ & _ & Hsym).
  exists k. split; [exact Hk|]. split; [exact Hsz|].
  apply (Hsym 2%nat). cbn. lia.
Defined.

(** Claim C10 as stated fails.  With [kernel_size = 45] and the default
    [sigma = 1.5] the first sample point is -22, the exponential is taken
    at [-0.5 * (22 / 1.5) ** 2], about -107.6, where float32 returns [0.0]:
    the first weight is 0, not strictly positive. *)
Lemma kernel_weight_underflows :
  (1 <= 45)%Z /\ 0 < 1.5 /\
  exists g, create_1d_gaussian_kernel_f32 45 1.5 = Ok g /\
    size g = [45%nat] /\ ~ 0 < item g [0%nat].
Proof.
  split; [lia|]. split; [lra|].
  rewrite create_1d_f32_returns by lia. eexists. split; [reflexivity|].
  split; [reflexivity|]. cbn [item hd]. unfold gauss_f32.
  rewrite (exp_f32_zero _ exponent_45_end). unfold Rdiv. rewrite Rmult_0_l. lra.
Qed.

(** Claim C10, as the code has it.  For kernel sizes at least 1 and
    deviations at least 0.04 (so that the exponential does not underflow at
    the centre and the normalising sum is positive) every element of the
    1-D kernel is non-negative; it is exactly 0 where the exponent
    [-0.5 * (t / sigma) ** 2] is below -104 and strictly positive where the
    exponent is at least -50.  Every element of the 2-D kernel is
    non-negative, 0 where either factor's exponent is below -104, and
    strictly positive where both exponents are at least -25. *)
Theorem kernel_weights_float32 (k0 k1 : Z) (s0 s1 : R) :
  (1 <= k0)%Z -> (1 <= k1)%Z -> 1 / 25 <= s0 -> 1 / 25 <= s1 ->
  (exists g, create_1d_gaussian_kernel_f32 k0 s0 = Ok g /\
     size g = [Z.to_nat k0] /\
     forall i, (i < Z.to_nat k0)%nat ->
       0 <= item g [i] /\
       (exponent k0 s0 i < -104 -> item g [i] = 0) /\
       (-50 <= exponent k0 s0 i -> 0 < item g [i])) /\
  (exists m,
     create_2d_gaussian_kernel_f32 (IntList [k0; k1]) (FloatList [s0; s1]) = Ok m /\
     size m = [Z.to_nat k0; Z.to_nat k1] /\
     forall i j, (i < Z.to_nat k0)%nat -> (j < Z.to_nat k1)%nat ->
       0 <= item m [i; j] /\
       (exponent k0 s0 i < -104 \/ exponent k1 s1 j < -104 -> item m [i; j] = 0) /\
       (-25 <= exponent k0 s0 i -> -25 <= exponent k1 s1 j -> 0 < item m [i; j])).
Proof.
  intros H0 H1 Hs0 Hs1. split.
  - rewrite create_1d_f32_returns by lia. eexists. split; [reflexivity|].
    split; [reflexivity|]. intros i _. cbn [item hd].
    destruct (weight_f32_facts k0 s0 i H0 Hs0) as (N & Z0 & P).
    unfold weight_f32 in N, Z0, P.
    split; [exact N|]. split; [exact Z0|]. intros E. apply P. lra.
  - rewrite create_2d_f32_returns by lia. eexists. split; [reflexivity|].
    split; [reflexivity|]. intros i j _ _. cbn [item nth rsum].
    destruct (weight_f32_facts k0 s0 i H0 Hs0) as (N0 & Z0 & P0).
    destruct (weight_f32_facts k1 s1 j H1 Hs1) as (N1 & Z1 & P1).
    rewrite Rplus_0_l. split; [apply Rmult_le_pos; assumption|]. split.
    + intros [E|E]; [rewrite (Z0 E) | rewrite (Z1 E)]; ring.
    + intros E0 E1. apply Rmult_lt_0_compat; [apply P0 | apply P1]; lra.
Qed.

Lemma kernel_weights_float32_witness :
  exists g, create_1d_gaussian_kernel_f32 45 1.5 = Ok g /\
    item g [0%nat] = 0 /\ 0 < item g [22%nat].
Proof.
  destruct (kernel_weights_float32 45 45 1.5 1.5
              ltac:(lia) ltac:(lia) ltac:(lra) ltac:(lra))
    as ((g & Hg & _ & Hall) & _).
  exists g. split; [exact Hg|]. split.
  - apply (Hall 0%nat); [cbn; lia | exact exponent_45_end].
  - apply (Hall 22%nat); [cbn; lia | rewrite exponent_45_centre; lra].
Defined.

(** * Further properties of the code *)

(** ** More on the kernels *)

Lemma exp_le_mono (u v : R) : u <= v -> Rtrigo_def.exp u <= Rtrigo_def.exp v.
Proof.
  intros [H| ->]; [left; apply exp_increasing; exact H | right; reflexivity].
Qed.

(** A point nearer to the centre carries at least the weight of one
    farther away. *)
Lemma unnormalised_le (kernel_size : Z) (sigma : R) (i j : nat) :
  sample_point kernel_size j ^ 2 <= sample_point kernel_size i ^ 2 ->
  unnormalised kernel_size sigma i <= unnormalised kernel_size sigma j.
Proof.
  intros H. unfold unnormalised. apply exp_le_mono.
  unfold Rdiv. rewrite !Rpow_mult_distr.
  assert (0 <= (/ sigma) ^ 2) by apply pow2_ge_0.
  replace (-0.5) with (- (1 / 2)) by lra. nra.
Qed.

Lemma weight_le (kernel_size : Z) (sigma : R) (i j : nat) :
  (1 <= kernel_size)%Z ->
  (i < Z.to_nat kernel_size)%nat -> (j < Z.to_nat kernel_size)%nat ->
  sample_point kernel_size j ^ 2 <= sample_point kernel_size i ^ 2 ->
  weight kernel_size sigma i <= weight kernel_size sigma j.
Proof.
  intros Hk Hi Hj H. unfold weight.
  rewrite !gauss_unnormalised by assumption.
  pose proof (gauss_sum_pos kernel_size sigma Hk) as Hs.
  apply Rmult_le_compat_r; [left; apply Rinv_0_lt_compat; exact Hs|].
  apply unnormalised_le. exact H.
Qed.

Lemma sample_point_left (kernel_size : Z) (i j : nat) :
  (1 <= kernel_size)%Z -> (i <= j)%nat -> (2 * j <= Z.to_nat kernel_size - 1)%nat ->
  sample_point kernel_size j ^ 2 <= sample_point kernel_size i ^ 2.
Proof.
  intros Hk Hij Hj. unfold sample_point.
  assert (Hn : INR (Z.to_nat kernel_size) = IZR kernel_size) by (apply INR_n; exact Hk).
  assert (H1 : INR i <= INR j) by (apply le_INR; exact Hij).
  assert (H2 : INR (2 * j) <= INR (Z.to_nat kernel_size - 1)) by (apply le_INR; exact Hj).
  rewrite mult_INR, minus_INR in H2 by lia. simpl in H2. rewrite Hn in H2.
  nra.
Qed.

(** The outer product is the dense 2-D Gaussian on the grid, normalised. *)
Lemma gauss_product (k0 k1 : Z) (s0 s1 : R) (i j : nat) :
  gauss k0 s0 i * gauss k1 s1 j
  = Rtrigo_def.exp (-0.5 * ((grid k0 i / s0) ^ 2 + (grid k1 j / s1) ^ 2)).
Proof. unfold gauss. rewrite <- exp_plus. f_equal. ring. Qed.

Lemma rsum_product (n m : nat) (f g : nat -> R) :
  rsum n f * rsum m g = rsum n (fun i => rsum m (fun j => f i * g j)).
Proof.
  rewrite <- rsum_scal_r. apply rsum_ext. intros i _.
  rewrite rsum_scal. reflexivity.
Qed.

(** Property X1.  The 1-D builder at the ends of its domain: a negative
    size raises, size 0 gives a kernel with no element, size 1 gives the
    single weight 1. *)
Theorem create_1d_edge_sizes (sigma : R) :
  (forall k, (k < 0)%Z -> create_1d_gaussian_kernel k sigma = Raise RuntimeError) /\
  (exists g, create_1d_gaussian_kernel 0 sigma = Ok g /\ size g = [0%nat]
             /\ elements g = []) /\
  (0 < sigma ->
   exists g, create_1d_gaussian_kernel 1 sigma = Ok g /\ elements g = [1]).
Proof.
  split; [intros k Hk; apply create_1d_raises; exact Hk|]. split.
  - rewrite create_1d_returns by lia. eexists. repeat split.
  - intros _. rewrite create_1d_returns by lia. eexists. split; [reflexivity|].
    unfold elements. cbn [size hd]. change (Z.to_nat 1) with 1%nat.
    cbn [seq map item hd]. f_equal.
    pose proof (weight_sum 1 sigma ltac:(lia)) as E. unfold weight in E.
    change (Z.to_nat 1) with 1%nat in E. cbn [rsum] in E |- *. lra.
Qed.

Lemma create_1d_edge_sizes_witness :
  0 < 1.5 /\ exists g, create_1d_gaussian_kernel 1 1.5 = Ok g /\ elements g = [1].
Proof.
  split; [lra|].
  apply (proj2 (proj2 (create_1d_edge_sizes 1.5))). lra.
Defined.

(** Property X2.  The 2-D builder reads two entries of each list: with a
    list of fewer than two entries (and no negative size) it raises
    [IndexError]. *)
Theorem create_2d_short_list_raises (ks : int_or_list) (sg : float_or_list) :
  (length (int_pair ks) < 2)%nat \/ (length (float_pair sg) < 2)%nat ->
  Forall (fun k => (0 <= k)%Z) (int_pair ks) ->
  create_2d_gaussian_kernel ks sg = Raise IndexError.
Proof.
  intros Hlen Hpos. unfold create_2d_gaussian_kernel, getitem.
  destruct (int_pair ks) as [|k0 [|k1 ks']];
    destruct (float_pair sg) as [|s0 [|s1 ss']];
    cbn [nth_error bind length] in *; try reflexivity;
    try (exfalso; lia);
    inversion Hpos as [|? ? Hk0 Hrest]; subst;
    rewrite create_1d_returns by assumption;
    unfold Torch.unsqueeze; cbn [bind size length Nat.leb]; reflexivity.
Qed.

Lemma create_2d_short_list_raises_witness :
  create_2d_gaussian_kernel (IntList [11%Z]) (PyFloat 1.5) = Raise IndexError.
Proof.
  apply create_2d_short_list_raises.
  - left. cbn. lia.
  - repeat constructor. lia.
Defined.

(** Property X3.  The 2-D kernel sums to 1. *)
Theorem create_2d_sums_to_one (k0 k1 : Z) (s0 s1 : R) :
  (1 <= k0)%Z -> (1 <= k1)%Z -> 0 < s0 -> 0 < s1 ->
  exists m, create_2d_gaussian_kernel (IntList [k0; k1]) (FloatList [s0; s1]) = Ok m /\
            Torch.sum m = 1.
Proof.
  intros H0 H1 _ _. rewrite create_2d_returns by lia.
  eexists. split; [reflexivity|].
  unfold Torch.sum. cbn [size kernel2d Torch.sum_over].
  apply (kernel2d_total k0 k1 s0 s1 H0 H1).
Qed.

Lemma create_2d_sums_to_one_witness :
  exists m, create_2d_gaussian_kernel (IntList [11; 3]%Z) (FloatList [1.5; 0.5]) = Ok m /\
            Torch.sum m = 1.
Proof. apply create_2d_sums_to_one; first [lia | lra]. Defined.

(** Property X4.  The 2-D kernel reads the same after flipping either
    axis, and for one size and one deviation on both axes it is a symmetric
    matrix. *)
Theorem create_2d_symmetric (k0 k1 : Z) (s0 s1 : R) :
  (1 <= k0)%Z -> (1 <= k1)%Z -> 0 < s0 -> 0 < s1 ->
  exists m, create_2d_gaussian_kernel (IntList [k0; k1]) (FloatList [s0; s1]) = Ok m /\
    (forall i j, (i < Z.to_nat k0)%nat -> (j < Z.to_nat k1)%nat ->
       item m [(Z.to_nat k0 - 1 - i)%nat; j] = item m [i; j] /\
       item m [i; (Z.to_nat k1 - 1 - j)%nat] = item m [i; j]) /\
    (k0 = k1 -> s0 = s1 -> forall i j, item m [i; j] = item m [j; i]).
Proof.
  intros H0 H1 _ _. rewrite create_2d_returns by lia.
  eexists. split; [reflexivity|]. split.
  - intros i j Hi Hj. rewrite !kernel2d_item.
    rewrite weight_mirror, weight_mirror by assumption. split; reflexivity.
  - intros <- <- i j. rewrite !kernel2d_item. ring.
Qed.

Lemma create_2d_symmetric_witness :
  exists m, create_2d_gaussian_kernel (IntList [3; 3]%Z) (FloatList [1.5; 1.5]) = Ok m /\
    item m [2; 1]%nat = item m [0; 1]%nat /\ item m [0; 1]%nat = item m [1; 0]%nat.
Proof.
  destruct (create_2d_symmetric 3 3 1.5 1.5 ltac:(lia) ltac:(lia) ltac:(lra) ltac:(lra))
    as (m & Hm & Hflip & Htr).
  exists m. split; [exact Hm|]. split.
  - apply (proj1 (Hflip 0%nat 1%nat ltac:(cbn; lia) ltac:(cbn; lia))).
  - apply Htr; reflexivity.
Defined.

(** Property X5.  The weights of the 1-D kernel do not decrease from the
    first element up to the centre (and, the kernel being symmetric, do not
    increase after it). *)
Theorem kernel_1d_rises_to_centre (kernel_size : Z) (sigma : R) :
  (1 <= kernel_size)%Z -> 0 < sigma ->
  exists k, create_1d_gaussian_kernel kernel_size sigma = Ok k /\
    forall i j, (i <= j)%nat -> (2 * j <= Z.to_nat kernel_size - 1)%nat ->
      item k [i] <= item k [j] /\
      item k [(Z.to_nat kernel_size - 1 - i)%nat] <= item k [(Z.to_nat kernel_size - 1 - j)%nat].
Proof.
  intros Hk _. rewrite create_1d_returns by lia.
  eexists. split; [reflexivity|].
  intros i j Hij Hj. cbn [item hd].
  change (weight kernel_size sigma i <= weight kernel_size sigma j /\
          weight kernel_size sigma (Z.to_nat kernel_size - 1 - i)
          <= weight kernel_size sigma (Z.to_nat kernel_size - 1 - j)).
  rewrite !weight_mirror by lia.
  assert (weight kernel_size sigma i <= weight kernel_size sigma j).
  { apply weight_le; try lia. apply sample_point_left; assumption. }
  split; assumption.
Qed.

Lemma kernel_1d_rises_to_centre_witness :
  exists k, create_1d_gaussian_kernel 11 1.5 = Ok k /\
    item k [0%nat] <= item k [5%nat] /\ item k [10%nat] <= item k [5%nat].
Proof.
  destruct (kernel_1d_rises_to_centre 11 1.5 ltac:(lia) ltac:(lra)) as (k & Hk & H).
  exists k. split; [exact Hk|].
  exact (H 0%nat 5%nat ltac:(lia) ltac:(cbn; lia)).
Defined.

(** Property X6.  The outer product is the dense 2-D Gaussian sampled on
    the same grid and divided by its sum. *)
Theorem create_2d_is_dense_gaussian (k0 k1 : Z) (s0 s1 : R) :
  (1 <= k0)%Z -> (1 <= k1)%Z -> 0 < s0 -> 0 < s1 ->
  exists m, create_2d_gaussian_kernel (IntList [k0; k1]) (FloatList [s0; s1]) = Ok m /\
    forall i j, (i < Z.to_nat k0)%nat -> (j < Z.to_nat k1)%nat ->
      item m [i; j]
      = dense_gauss k0 k1 s0 s1 i j
        / rsum (Z.to_nat k0) (fun a => rsum (Z.to_nat k1) (fun b =>
            dense_gauss k0 k1 s0 s1 a b)).
Proof.
  intros H0 H1 _ _. rewrite create_2d_returns by lia.
  eexists. split; [reflexivity|].
  intros i j Hi Hj. rewrite kernel2d_item. unfold weight.
  pose proof (gauss_sum_pos k0 s0 H0) as P0.
  pose proof (gauss_sum_pos k1 s1 H1) as P1.
  assert (E : forall a b, (a < Z.to_nat k0)%nat -> (b < Z.to_nat k1)%nat ->
            dense_gauss k0 k1 s0 s1 a b = gauss k0 s0 a * gauss k1 s1 b).
  { intros a b Ha Hb. rewrite gauss_product. unfold dense_gauss.
    rewrite !grid_sample_point by assumption. reflexivity. }
  assert (D : rsum (Z.to_nat k0) (fun a => rsum (Z.to_nat k1) (fun b =>
                dense_gauss k0 k1 s0 s1 a b))
              = rsum (Z.to_nat k0) (gauss k0 s0) * rsum (Z.to_nat k1) (gauss k1 s1)).
  { rewrite rsum_product. apply rsum_ext. intros a Ha.
    apply rsum_ext. intros b Hb. apply E; assumption. }
  rewrite D, E by assumption. field. split; lra.
Qed.

Lemma create_2d_is_dense_gaussian_witness :
  exists m, create_2d_gaussian_kernel (IntList [3; 3]%Z) (FloatList [1.5; 1.5]) = Ok m /\
    item m [1; 2]%nat
    = dense_gauss 3 3 1.5 1.5 1 2
      / rsum 3 (fun a => rsum 3 (fun b => dense_gauss 3 3 1.5 1.5 a b)).
Proof.
  destruct (create_2d_is_dense_gaussian 3 3 1.5 1.5
              ltac:(lia) ltac:(lia) ltac:(lra) ltac:(lra)) as (m & Hm & H).
  exists m. split; [exact Hm|].
  exact (H 1%nat 2%nat ltac:(cbn; lia) ltac:(cbn; lia)).
Defined.

(** Property X7.  Construction succeeds exactly when [data_range], [k1]
    and [k2] are positive, both argument lists have (after resolution) at
    least two entries and the first two kernel sizes are not negative. *)
Theorem init_succeeds_iff (a : args) :
  (exists e, __init__ a = Ok e) <->
  (0 < data_range a /\ 0 < SSIM3D.k1 a /\ 0 < k2 a /\
   exists k0 k1 ks s0 s1 ss,
     int_pair (kernel_size a) = k0 :: k1 :: ks /\
     float_pair (sigma a) = s0 :: s1 :: ss /\
     (0 <= k0)%Z /\ (0 <= k1)%Z).
Proof.
  split.
  - intros [e He].
    destruct (init_inv a e He)
      as (k0 & k1 & ks & s0 & s1 & ss & Ek & Es & H0 & H1 & Hd & Hk1 & Hk2 & _).
    repeat (split; [assumption|]).
    exists k0, k1, ks, s0, s1, ss. repeat split; assumption.
  - intros (Hd & Hk1 & Hk2 & k0 & k1 & ks & s0 & s1 & ss & Ek & Es & H0 & H1).
    exists (engine a k0 k1 s0 s1).
    apply (init_returns a k0 k1 s0 s1 ks ss); assumption.
Qed.

Lemma init_succeeds_iff_witness : exists e, __init__ defaults = Ok e.
Proof.
  apply (proj2 (init_succeeds_iff defaults)).
  cbn [defaults data_range SSIM3D.k1 k2 kernel_size sigma int_pair float_pair].
  repeat (split; [lra|]).
  exists 11%Z, 11%Z, [], 1.5, 1.5, []. repeat split; lia.
Defined.

(** ** Second moments under a normalised window *)

Section Covariance.

Variables (n m : nat) (K p q : nat -> nat -> R).
Hypothesis K_nonneg : forall i j, (i < n)%nat -> (j < m)%nat -> 0 <= K i j.
Hypothesis K_total : rsum n (fun i => rsum m (fun j => K i j)) = 1.

Lemma weighted_sum_variance :
  (rsum n (fun i => rsum m (fun j => K i j * p i j))
   + rsum n (fun i => rsum m (fun j => K i j * q i j))) ^ 2
  <= rsum n (fun i => rsum m (fun j => K i j * p i j ^ 2))
     + 2 * rsum n (fun i => rsum m (fun j => K i j * (p i j * q i j)))
     + rsum n (fun i => rsum m (fun j => K i j * q i j ^ 2)).
Proof.
  pose proof (weighted_variance_nonneg n m K (fun i j => p i j + q i j)
                K_nonneg K_total) as H.
  cbv beta in H.
  rewrite (rsum2_ext n m (fun i j => K i j * (p i j + q i j))
             (fun i j => 1 * (K i j * p i j) + 1 * (K i j * q i j))) in H
    by (intros; ring).
  rewrite (rsum2_ext n m (fun i j => K i j * (p i j + q i j) ^ 2)
             (fun i j => 1 * (K i j * p i j ^ 2)
                         + 1 * (2 * (K i j * (p i j * q i j))
                                + 1 * (K i j * q i j ^ 2)))) in H
    by (intros; ring).
  rewrite !rsum2_lin in H. lra.
Qed.

Lemma weighted_difference_variance :
  (rsum n (fun i => rsum m (fun j => K i j * p i j))
   - rsum n (fun i => rsum m (fun j => K i j * q i j))) ^ 2
  <= rsum n (fun i => rsum m (fun j => K i j * p i j ^ 2))
     - 2 * rsum n (fun i => rsum m (fun j => K i j * (p i j * q i j)))
     + rsum n (fun i => rsum m (fun j => K i j * q i j ^ 2)).
Proof.
  pose proof (weighted_variance_nonneg n m K (fun i j => p i j - q i j)
                K_nonneg K_total) as H.
  cbv beta in H.
  rewrite (rsum2_ext n m (fun i j => K i j * (p i j - q i j))
             (fun i j => 1 * (K i j * p i j) + (-1) * (K i j * q i j))) in H
    by (intros; ring).
  rewrite (rsum2_ext n m (fun i j => K i j * (p i j - q i j) ^ 2)
             (fun i j => 1 * (K i j * p i j ^ 2)
                         + 1 * ((-2) * (K i j * (p i j * q i j))
                                + 1 * (K i j * q i j ^ 2)))) in H
    by (intros; ring).
  rewrite !rsum2_lin in H. lra.
Qed.

End Covariance.

Lemma pad0_mul (ph pw H W : nat) (f g : nat -> nat -> R) (a b : nat) :
  pad0 ph pw H W (fun h w => f h w * g h w) a b
  = pad0 ph pw H W f a b * pad0 ph pw H W g a b.
Proof.
  unfold pad0.
  destruct ((ph <=? a)%nat && (a <? ph + H)%nat && (pw <=? b)%nat && (b <? pw + W)%nat);
    [reflexivity | ring].
Qed.

Lemma pad0_scal (ph pw H W : nat) (s : R) (f : nat -> nat -> R) (a b : nat) :
  pad0 ph pw H W (fun h w => s * f h w) a b = s * pad0 ph pw H W f a b.
Proof.
  unfold pad0.
  destruct ((ph <=? a)%nat && (a <? ph + H)%nat && (pw <=? b)%nat && (b <? pw + W)%nat);
    [reflexivity | ring].
Qed.

(** The second moments the formula uses, for a Gaussian window: both local
    variances are non-negative and twice the local covariance is between
    minus and plus their sum. *)
Lemma local_moments (k0 k1 : Z) (s0 s1 : R) (ph pw : nat) (x y : tensor)
  (B C T H W : nat) (idx : list nat) :
  (1 <= k0)%Z -> (1 <= k1)%Z ->
  size x = [B; C; T; H; W] -> size y = [B; C; T; H; W] ->
  length idx = 5%nat ->
  let K := kernel2d k0 k1 s0 s1 in
  let ux := local_mean K ph pw x idx in
  let uy := local_mean K ph pw y idx in
  let uxx := local_mean K ph pw (square x) idx in
  let uyy := local_mean K ph pw (square y) idx in
  let uxy := local_mean K ph pw (product x y) idx in
  0 <= uxx - ux ^ 2 /\ 0 <= uyy - uy ^ 2 /\
  2 * (uxy - ux * uy) <= (uxx - ux ^ 2) + (uyy - uy ^ 2) /\
  - ((uxx - ux ^ 2) + (uyy - uy ^ 2)) <= 2 * (uxy - ux * uy).
Proof.
  intros H0 H1 Hx Hy Hl K ux uy uxx uyy uxy.
  pose proof (local_variance_nonneg k0 k1 s0 s1 ph pw x B C T H W idx H0 H1 Hx Hl) as Vx.
  pose proof (local_variance_nonneg k0 k1 s0 s1 ph pw y B C T H W idx H0 H1 Hy Hl) as Vy.
  fold K ux uxx in Vx. fold K uy uyy in Vy.
  split; [lra|]. split; [lra|].
  destruct idx as [|b [|c [|t [|h [|w [|]]]]]]; try discriminate.
  set (px := fun i j => pad0 ph pw H W (fun h' w' => item x [b; c; t; h'; w']) (h + i) (w + j)).
  set (py := fun i j => pad0 ph pw H W (fun h' w' => item y [b; c; t; h'; w']) (h + i) (w + j)).
  set (Kf := fun i j => item K [i; j]).
  assert (Kn : forall i j, (i < Z.to_nat k0)%nat -> (j < Z.to_nat k1)%nat -> 0 <= Kf i j).
  { intros i j _ _. apply Rlt_le, kernel2d_pos; assumption. }
  assert (Kt : rsum (Z.to_nat k0) (fun i => rsum (Z.to_nat k1) (fun j => Kf i j)) = 1).
  { apply kernel2d_total; assumption. }
  pose proof (weighted_sum_variance _ _ Kf px py Kn Kt) as Hs.
  pose proof (weighted_difference_variance _ _ Kf px py Kn Kt) as Hd.
  assert (Eux : ux = rsum (Z.to_nat k0) (fun i => rsum (Z.to_nat k1) (fun j => Kf i j * px i j))).
  { apply (local_mean_eq K ph pw x B C T H W (Z.to_nat k0) (Z.to_nat k1)); [reflexivity | exact Hx]. }
  assert (Euy : uy = rsum (Z.to_nat k0) (fun i => rsum (Z.to_nat k1) (fun j => Kf i j * py i j))).
  { apply (local_mean_eq K ph pw y B C T H W (Z.to_nat k0) (Z.to_nat k1)); [reflexivity | exact Hy]. }
  assert (Euxx : uxx = rsum (Z.to_nat k0) (fun i => rsum (Z.to_nat k1) (fun j => Kf i j * px i j ^ 2))).
  { unfold uxx. rewrite (local_mean_eq K ph pw (square x) B C T H W (Z.to_nat k0) (Z.to_nat k1))
      by (first [reflexivity | exact Hx]).
    apply rsum2_ext. intros i j _ _. f_equal. unfold px. cbn [item square].
    apply (pad0_sq ph pw H W (fun h' w' => item x [b; c; t; h'; w'])). }
  assert (Euyy : uyy = rsum (Z.to_nat k0) (fun i => rsum (Z.to_nat k1) (fun j => Kf i j * py i j ^ 2))).
  { unfold uyy. rewrite (local_mean_eq K ph pw (square y) B C T H W (Z.to_nat k0) (Z.to_nat k1))
      by (first [reflexivity | exact Hy]).
    apply rsum2_ext. intros i j _ _. f_equal. unfold py. cbn [item square].
    apply (pad0_sq ph pw H W (fun h' w' => item y [b; c; t; h'; w'])). }
  assert (Euxy : uxy = rsum (Z.to_nat k0) (fun i => rsum (Z.to_nat k1) (fun j => Kf i j * (px i j * py i j)))).
  { unfold uxy. rewrite (local_mean_eq K ph pw (product x y) B C T H W (Z.to_nat k0) (Z.to_nat k1))
      by (first [reflexivity | exact Hx]).
    apply rsum2_ext. intros i j _ _. f_equal. unfold px, py. cbn [item product].
    apply (pad0_mul ph pw H W (fun h' w' => item x [b; c; t; h'; w'])
             (fun h' w' => item y [b; c; t; h'; w'])). }
  rewrite <- Eux, <- Euy, <- Euxx, <- Euyy, <- Euxy in Hs, Hd.
  split; nra.
Qed.

(** The formula on such moments: a positive denominator and a value
    between -1 and 1. *)
Lemma ssim_den_pos (c1 c2 ux uy uxx uyy : R) :
  0 < c1 -> 0 < c2 -> 0 <= uxx - ux ^ 2 -> 0 <= uyy - uy ^ 2 ->
  0 < (ux ^ 2 + uy ^ 2 + c1) * ((uxx - ux ^ 2) + (uyy - uy ^ 2) + c2).
Proof.
  intros H1 H2 Vx Vy. apply Rmult_lt_0_compat; nra.
Qed.

Lemma ssim_bounded (c1 c2 ux uy uxx uyy uxy : R) :
  0 < c1 -> 0 < c2 -> 0 <= uxx - ux ^ 2 -> 0 <= uyy - uy ^ 2 ->
  2 * (uxy - ux * uy) <= (uxx - ux ^ 2) + (uyy - uy ^ 2) ->
  - ((uxx - ux ^ 2) + (uyy - uy ^ 2)) <= 2 * (uxy - ux * uy) ->
  -1 <= ssim c1 c2 ux uy uxx uyy uxy <= 1.
Proof.
  intros H1 H2 Vx Vy Cu Cl. unfold ssim.
  set (a1 := 2 * ux * uy + c1). set (a2 := 2 * (uxy - ux * uy) + c2).
  set (b1 := ux ^ 2 + uy ^ 2 + c1). set (b2 := uxx - ux ^ 2 + (uyy - uy ^ 2) + c2).
  assert (B1 : 0 < b1) by (unfold b1; nra).
  assert (B2 : 0 < b2) by (unfold b2; nra).
  assert (Q1 : 0 <= (ux - uy) ^ 2) by apply pow2_ge_0.
  assert (Q2 : 0 <= (ux + uy) ^ 2) by apply pow2_ge_0.
  assert (A1 : - b1 <= a1 <= b1) by (unfold a1, b1; split; nra).
  assert (A2 : - b2 <= a2 <= b2) by (unfold a2, b2; split; nra).
  assert (D : 0 < b1 * b2) by (apply Rmult_lt_0_compat; assumption).
  assert (U : a1 * a2 <= b1 * b2) by nra.
  assert (L : - (b1 * b2) <= a1 * a2) by nra.
  split.
  - apply Rmult_le_reg_r with (b1 * b2); [exact D|].
    unfold Rdiv. rewrite Rmult_assoc, Rinv_l by lra. lra.
  - apply Rmult_le_reg_r with (b1 * b2); [exact D|].
    unfold Rdiv. rewrite Rmult_assoc, Rinv_l by lra. lra.
Qed.

(** ** Calls on an engine built by [__init__] *)

Lemma forward_of_init (a : args) (e : SSIM3D.t) (x y : tensor)
  (B C T H W : nat) (k0 k1 : Z) :
  __init__ a = Ok e ->
  int_pair (kernel_size a) = [k0; k1] ->
  size x = [B; C; T; H; W] -> size y = [B; C; T; H; W] ->
  fits C T H W (Z.to_nat k0) (Z.to_nat k1) ((k0 - 1) / 2) ((k1 - 1) / 2) = true ->
  exists s0 s1 out,
    e = engine a k0 k1 s0 s1 /\ (1 <= k0)%Z /\ (1 <= k1)%Z /\
    0 < c1 e /\ 0 < c2 e /\
    forward e x y = Ok out /\
    size out = [B; C; T; out_extent H (Z.to_nat k0) ((k0 - 1) / 2);
                out_extent W (Z.to_nat k1) ((k1 - 1) / 2)] /\
    forall idx, in_range idx (size out) ->
      length idx = 5%nat /\
      item out idx
      = ssim (c1 e) (c2 e)
          (local_mean (kernel e) (Z.to_nat ((k0 - 1) / 2)) (Z.to_nat ((k1 - 1) / 2)) x idx)
          (local_mean (kernel e) (Z.to_nat ((k0 - 1) / 2)) (Z.to_nat ((k1 - 1) / 2)) y idx)
          (local_mean (kernel e) (Z.to_nat ((k0 - 1) / 2)) (Z.to_nat ((k1 - 1) / 2)) (square x) idx)
          (local_mean (kernel e) (Z.to_nat ((k0 - 1) / 2)) (Z.to_nat ((k1 - 1) / 2)) (square y) idx)
          (local_mean (kernel e) (Z.to_nat ((k0 - 1) / 2)) (Z.to_nat ((k1 - 1) / 2)) (product x y) idx).
Proof.
  intros Hinit Ek Hx Hy Hfit.
  destruct (init_inv a e Hinit)
    as (k0' & k1' & ks & s0 & s1 & ss & Ek' & _ & _ & _ & Hd & Hk1 & Hk2 & ->).
  rewrite Ek in Ek'. injection Ek' as <- <- <-.
  destruct (forward_feasible (engine a k0 k1 s0 s1) x y B C T H W
              (Z.to_nat k0) (Z.to_nat k1) ((k0 - 1) / 2) ((k1 - 1) / 2)
              Hx Hy (engine_kernel_size _ _ _ _ _) (engine_pad _ _ _ _ _ Ek) Hfit)
    as (out & Hout & Hsz & Hitem).
  exists s0, s1, out. split; [reflexivity|].
  assert (G : (1 <= k0)%Z /\ (1 <= k1)%Z).
  { unfold fits in Hfit. rewrite !andb_true_iff, !Nat.leb_le in Hfit. lia. }
  split; [apply G|]. split; [apply G|].
  split; [apply engine_c1_pos; assumption|].
  split; [apply engine_c2_pos; assumption|].
  split; [exact Hout|]. split; [exact Hsz|].
  intros idx Hin. split; [|apply Hitem; exact Hin].
  rewrite Hsz in Hin. apply Forall2_length in Hin. exact Hin.
Qed.

Lemma pad_parity (k : Z) :
  (1 <= k)%Z -> Z.to_nat k = (2 * Z.to_nat ((k - 1) / 2) + 1 + shrink k)%nat.
Proof.
  intros Hk. unfold shrink. destruct (Z.even k) eqn:E.
  - apply Z.even_spec in E. destruct E as [q ->].
    replace (2 * q - 1)%Z with ((q - 1) * 2 + 1)%Z by lia.
    rewrite Z.div_add_l by lia. change (1 / 2)%Z with 0%Z. lia.
  - assert (O : Z.odd k = true) by (rewrite <- Z.negb_even, E; reflexivity).
    pose proof (odd_pad k Hk O). lia.
Qed.

Lemma pad_nonneg (k : Z) : (1 <= k)%Z -> (0 <= (k - 1) / 2)%Z.
Proof. intros Hk. apply Z.div_pos; lia. Qed.

Lemma fits_iff (C T H W : nat) (k0 k1 : Z) :
  (1 <= k0)%Z -> (1 <= k1)%Z ->
  fits C T H W (Z.to_nat k0) (Z.to_nat k1) ((k0 - 1) / 2) ((k1 - 1) / 2) = true <->
  (1 <= C /\ 1 <= T /\ 1 + shrink k0 <= H /\ 1 + shrink k1 <= W)%nat.
Proof.
  intros H0 H1. unfold fits.
  pose proof (pad_parity k0 H0). pose proof (pad_parity k1 H1).
  pose proof (pad_nonneg k0 H0). pose proof (pad_nonneg k1 H1).
  rewrite !andb_true_iff, !Nat.leb_le, !Z.leb_le. lia.
Qed.

Lemma out_extent_parity (n : nat) (k : Z) :
  (1 <= k)%Z -> (1 + shrink k <= n)%nat ->
  out_extent n (Z.to_nat k) ((k - 1) / 2) = (n - shrink k)%nat.
Proof.
  intros Hk Hn. unfold out_extent. pose proof (pad_parity k Hk). lia.
Qed.

(** Property X8.  On an engine built by [__init__] with no deviation equal
    to 0 (at [sigma = 0.0] the kernel of the source is [nan]) the map never
    divides by zero: at every index both factors of the denominator are at
    least the positive constants [c1] and [c2]. *)
Theorem forward_denominator_positive
  (a : args) (e : SSIM3D.t) (x y : tensor) (B C T H W : nat) (k0 k1 : Z) :
  __init__ a = Ok e ->
  Forall (fun s => s <> 0) (float_pair (sigma a)) ->
  int_pair (kernel_size a) = [k0; k1] ->
  size x = [B; C; T; H; W] -> size y = [B; C; T; H; W] ->
  fits C T H W (Z.to_nat k0) (Z.to_nat k1) ((k0 - 1) / 2) ((k1 - 1) / 2) = true ->
  let ph := Z.to_nat ((k0 - 1) / 2) in
  let pw := Z.to_nat ((k1 - 1) / 2) in
  exists out, forward e x y = Ok out /\
    forall idx, in_range idx (size out) ->
      let ux := local_mean (kernel e) ph pw x idx in
      let uy := local_mean (kernel e) ph pw y idx in
      let uxx := local_mean (kernel e) ph pw (square x) idx in
      let uyy := local_mean (kernel e) ph pw (square y) idx in
      let uxy := local_mean (kernel e) ph pw (product x y) idx in
      0 < c1 e <= ux ^ 2 + uy ^ 2 + c1 e /\
      0 < c2 e <= (uxx - ux ^ 2) + (uyy - uy ^ 2) + c2 e /\
      item out idx * ((ux ^ 2 + uy ^ 2 + c1 e) * ((uxx - ux ^ 2) + (uyy - uy ^ 2) + c2 e))
      = (2 * ux * uy + c1 e) * (2 * (uxy - ux * uy) + c2 e).
Proof.
  intros Hinit Hsigma Ek Hx Hy Hfit ph pw.
  destruct (forward_of_init a e x y B C T H W k0 k1 Hinit Ek Hx Hy Hfit)
    as (s0 & s1 & out & -> & G0 & G1 & P1 & P2 & Hout & Hsz & Hitem).
  exists out. split; [exact Hout|].
  intros idx Hin ux uy uxx uyy uxy.
  destruct (Hitem idx Hin) as [Hl Hi].
  destruct (local_moments k0 k1 s0 s1 ph pw x y B C T H W idx G0 G1 Hx Hy Hl)
    as (Vx & Vy & _ & _).
  cbn [kernel engine] in *. fold ph pw in Hi. fold ux uy uxx uyy uxy in Hi, Vx, Vy.
  split; [split; [exact P1 | nra]|]. split; [split; [exact P2 | lra]|].
  rewrite Hi. unfold ssim.
  pose proof (ssim_den_pos _ _ ux uy uxx uyy P1 P2 Vx Vy) as D.
  field. split; nra.
Qed.

Lemma forward_denominator_positive_witness :
  exists out,
    forward (engine defaults 11 11 1.5 1.5)
      (full [1; 1; 1; 2; 2]%nat 0.5) (full [1; 1; 1; 2; 2]%nat 0.25) = Ok out.
Proof.
  assert (Hsigma : Forall (fun s => s <> 0) (float_pair (sigma defaults)))
    by (repeat constructor; lra).
  destruct (forward_denominator_positive defaults (engine defaults 11 11 1.5 1.5)
              (full [1; 1; 1; 2; 2]%nat 0.5) (full [1; 1; 1; 2; 2]%nat 0.25)
              1 1 1 2 2 11 11 init_defaults Hsigma eq_refl eq_refl eq_refl eq_refl)
    as (out & Hout & _).
  exists out. exact Hout.
Defined.

(** Property X9.  On an engine built by [__init__] with no deviation equal
    to 0 every element of the map lies between -1 and 1, borders
    included. *)
Theorem forward_bounded
  (a : args) (e : SSIM3D.t) (x y : tensor) (B C T H W : nat) (k0 k1 : Z) :
  __init__ a = Ok e ->
  Forall (fun s => s <> 0) (float_pair (sigma a)) ->
  int_pair (kernel_size a) = [k0; k1] ->
  size x = [B; C; T; H; W] -> size y = [B; C; T; H; W] ->
  fits C T H W (Z.to_nat k0) (Z.to_nat k1) ((k0 - 1) / 2) ((k1 - 1) / 2) = true ->
  exists out, forward e x y = Ok out /\
    forall idx, in_range idx (size out) -> -1 <= item out idx <= 1.
Proof.
  intros Hinit Hsigma Ek Hx Hy Hfit.
  destruct (forward_of_init a e x y B C T H W k0 k1 Hinit Ek Hx Hy Hfit)
    as (s0 & s1 & out & -> & G0 & G1 & P1 & P2 & Hout & Hsz & Hitem).
  exists out. split; [exact Hout|].
  intros idx Hin. destruct (Hitem idx Hin) as [Hl ->].
  destruct (local_moments k0 k1 s0 s1 (Z.to_nat ((k0 - 1) / 2)) (Z.to_nat ((k1 - 1) / 2))
              x y B C T H W idx G0 G1 Hx Hy Hl) as (Vx & Vy & Cu & Cl).
  apply ssim_bounded; assumption.
Qed.

Lemma forward_bounded_witness :
  exists out,
    forward (engine defaults 11 11 1.5 1.5)
      (full [1; 1; 1; 2; 2]%nat 0.5) (full [1; 1; 1; 2; 2]%nat 0.25) = Ok out /\
    -1 <= item out [0; 0; 0; 1; 1]%nat <= 1.
Proof.
  assert (Hsigma : Forall (fun s => s <> 0) (float_pair (sigma defaults)))
    by (repeat constructor; lra).
  destruct (forward_bounded defaults (engine defaults 11 11 1.5 1.5)
              (full [1; 1; 1; 2; 2]%nat 0.5) (full [1; 1; 1; 2; 2]%nat 0.25)
              1 1 1 2 2 11 11 init_defaults Hsigma eq_refl eq_refl eq_refl eq_refl)
    as (out & Hout & Hb).
  exists out. split; [exact Hout|]. apply Hb.
  pose proof (forward_feasible (engine defaults 11 11 1.5 1.5)
                (full [1; 1; 1; 2; 2]%nat 0.5) (full [1; 1; 1; 2; 2]%nat 0.25)
                1 1 1 2 2 11 11 5 5 eq_refl eq_refl eq_refl eq_refl eq_refl)
    as (out' & Hout' & Hsz & _).
  rewrite Hout in Hout'. injection Hout' as <-. rewrite Hsz.
  repeat constructor.
Defined.

(** Two volumes that agree on the window of an index have the same local
    mean there. *)
Lemma local_mean_window_ext (K : tensor) (ph pw : nat) (v v' : tensor)
  (B C T H W kh kw b c t h w : nat) :
  size K = [kh; kw] -> size v = [B; C; T; H; W] -> size v' = [B; C; T; H; W] ->
  (forall h' w', (h' < H)%nat -> (w' < W)%nat ->
     (h <= h' + ph < h + kh)%nat -> (w <= w' + pw < w + kw)%nat ->
     item v [b; c; t; h'; w'] = item v' [b; c; t; h'; w']) ->
  local_mean K ph pw v [b; c; t; h; w] = local_mean K ph pw v' [b; c; t; h; w].
Proof.
  intros HK Hv Hv' E.
  rewrite (local_mean_eq K ph pw v B C T H W kh kw) by assumption.
  rewrite (local_mean_eq K ph pw v' B C T H W kh kw) by assumption.
  apply rsum_ext. intros i Hi. apply rsum_ext. intros j Hj. f_equal.
  unfold pad0.
  destruct (Nat.leb_spec ph (h + i)); [|reflexivity].
  destruct (Nat.ltb_spec (h + i) (ph + H)); [|reflexivity].
  destruct (Nat.leb_spec pw (w + j)); [|reflexivity].
  destruct (Nat.ltb_spec (w + j) (pw + W)); [|reflexivity].
  cbn [andb]. apply E; lia.
Qed.

(** Property X10.  An element of the map depends only on the two inputs'
    pixels under the kernel window around it, in the same batch entry,
    channel and time step: other pixels, channels, time steps and batch
    entries do not reach it. *)
Theorem forward_is_local
  (a : args) (e : SSIM3D.t) (x y x' y' : tensor) (B C T H W : nat) (k0 k1 : Z)
  (b c t h w : nat) :
  __init__ a = Ok e ->
  int_pair (kernel_size a) = [k0; k1] ->
  size x = [B; C; T; H; W] -> size y = [B; C; T; H; W] ->
  size x' = [B; C; T; H; W] -> size y' = [B; C; T; H; W] ->
  fits C T H W (Z.to_nat k0) (Z.to_nat k1) ((k0 - 1) / 2) ((k1 - 1) / 2) = true ->
  (b < B)%nat -> (c < C)%nat -> (t < T)%nat ->
  (h < out_extent H (Z.to_nat k0) ((k0 - 1) / 2))%nat ->
  (w < out_extent W (Z.to_nat k1) ((k1 - 1) / 2))%nat ->
  let ph := Z.to_nat ((k0 - 1) / 2) in
  let pw := Z.to_nat ((k1 - 1) / 2) in
  (forall h' w', (h' < H)%nat -> (w' < W)%nat ->
     (h <= h' + ph < h + Z.to_nat k0)%nat -> (w <= w' + pw < w + Z.to_nat k1)%nat ->
     item x [b; c; t; h'; w'] = item x' [b; c; t; h'; w'] /\
     item y [b; c; t; h'; w'] = item y' [b; c; t; h'; w']) ->
  exists out out',
    forward e x y = Ok out /\ forward e x' y' = Ok out' /\
    item out [b; c; t; h; w] = item out' [b; c; t; h; w].
Proof.
  intros Hinit Ek Hx Hy Hx' Hy' Hfit Hb Hc Ht Hh Hw ph pw Hag.
  destruct (forward_of_init a e x y B C T H W k0 k1 Hinit Ek Hx Hy Hfit)
    as (s0 & s1 & out & -> & _ & _ & _ & _ & Hout & Hsz & Hitem).
  destruct (forward_of_init a _ x' y' B C T H W k0 k1 Hinit Ek Hx' Hy' Hfit)
    as (s0' & s1' & out' & _ & _ & _ & _ & _ & Hout' & Hsz' & Hitem').
  exists out, out'. split; [exact Hout|]. split; [exact Hout'|].
  assert (Hin : in_range [b; c; t; h; w] (size out))
    by (rewrite Hsz; apply in_range5; assumption).
  rewrite (proj2 (Hitem _ Hin)).
  rewrite (proj2 (Hitem' _ ltac:(rewrite Hsz', <- Hsz; exact Hin))).
  fold ph pw.
  f_equal;
    apply (local_mean_window_ext _ ph pw _ _ B C T H W (Z.to_nat k0) (Z.to_nat k1));
    try reflexivity; try assumption;
    intros h' w' Hh' Hw' Wh Ww; destruct (Hag h' w' Hh' Hw' Wh Ww) as [Ex Ey];
    cbn [item square product]; congruence.
Qed.

Lemma forward_is_local_witness :
  exists out out',
    forward (engine defaults 11 11 1.5 1.5)
      {| size := [1; 2; 1; 2; 2]%nat; item := fun idx => INR (nth 1 idx O) |}
      (full [1; 2; 1; 2; 2]%nat 0.25) = Ok out /\
    forward (engine defaults 11 11 1.5 1.5)
      (full [1; 2; 1; 2; 2]%nat 0) (full [1; 2; 1; 2; 2]%nat 0.25) = Ok out' /\
    item out [0; 0; 0; 1; 1]%nat = item out' [0; 0; 0; 1; 1]%nat.
Proof.
  apply (forward_is_local defaults (engine defaults 11 11 1.5 1.5)
           {| size := [1; 2; 1; 2; 2]%nat; item := fun idx => INR (nth 1 idx O) |}
           (full [1; 2; 1; 2; 2]%nat 0.25)
           (full [1; 2; 1; 2; 2]%nat 0) (full [1; 2; 1; 2; 2]%nat 0.25)
           1 2 1 2 2 11 11 0 0 0 1 1 init_defaults
           eq_refl eq_refl eq_refl eq_refl eq_refl eq_refl).
  all: try (cbn; lia).
  all: try (vm_compute; lia).
  intros h' w' _ _ _ _; split; reflexivity.
Defined.

(** Property X11.  The height and width of the map: the input's extent
    for an odd kernel size, one less for an even one. *)
Theorem forward_output_extent
  (a : args) (e : SSIM3D.t) (x y : tensor) (B C T H W : nat) (k0 k1 : Z) :
  __init__ a = Ok e ->
  int_pair (kernel_size a) = [k0; k1] ->
  (1 <= k0)%Z -> (1 <= k1)%Z ->
  size x = [B; C; T; H; W] -> size y = [B; C; T; H; W] ->
  (1 <= C)%nat -> (1 <= T)%nat ->
  (1 + shrink k0 <= H)%nat -> (1 + shrink k1 <= W)%nat ->
  exists out, forward e x y = Ok out /\
    size out = [B; C; T; H - shrink k0; W - shrink k1]%nat.
Proof.
  intros Hinit Ek H0 H1 Hx Hy HC HT HH HW.
  assert (Hfit : fits C T H W (Z.to_nat k0) (Z.to_nat k1)
                   ((k0 - 1) / 2) ((k1 - 1) / 2) = true)
    by (apply fits_iff; [assumption | assumption | lia]).
  destruct (forward_of_init a e x y B C T H W k0 k1 Hinit Ek Hx Hy Hfit)
    as (s0 & s1 & out & _ & _ & _ & _ & _ & Hout & Hsz & _).
  exists out. split; [exact Hout|].
  rewrite Hsz, !out_extent_parity by assumption. reflexivity.
Qed.

Lemma forward_output_extent_witness :
  exists out,
    forward (engine {| kernel_size := IntList [4; 3]%Z; sigma := PyFloat 1.5;
                       k1 := 0.01; k2 := 0.03; data_range := 1 |} 4 3 1.5 1.5)
      (full [1; 1; 1; 5; 5]%nat 0.5) (full [1; 1; 1; 5; 5]%nat 0.25) = Ok out /\
    size out = [1; 1; 1; 4; 5]%nat.
Proof.
  apply (forward_output_extent
           {| kernel_size := IntList [4; 3]%Z; sigma := PyFloat 1.5;
              k1 := 0.01; k2 := 0.03; data_range := 1 |} _
           (full [1; 1; 1; 5; 5]%nat 0.5) (full [1; 1; 1; 5; 5]%nat 0.25)
           1 1 1 5 5 4 3);
    try reflexivity; try (cbn; lia).
  apply (init_returns _ 4 3 1.5 1.5 [] []); try reflexivity; try lia; cbn; lra.
Defined.

(** Property X12.  On an engine built by [__init__] from two kernel
    sizes, inputs of one shape with no channel, no time step, or an image
    too small for the kernel (no row or column; a single row or column
    under an even kernel size) make the call raise. *)
Theorem forward_small_input_raises
  (a : args) (e : SSIM3D.t) (x y : tensor) (B C T H W : nat) (k0 k1 : Z) :
  __init__ a = Ok e ->
  int_pair (kernel_size a) = [k0; k1] ->
  (1 <= k0)%Z -> (1 <= k1)%Z ->
  size x = [B; C; T; H; W] -> size y = [B; C; T; H; W] ->
  (C = 0 \/ T = 0 \/ H < 1 + shrink k0 \/ W < 1 + shrink k1)%nat ->
  forward e x y = Raise RuntimeError.
Proof.
  intros Hinit Ek H0 H1 Hx Hy Hsmall.
  destruct (init_inv a e Hinit)
    as (k0' & k1' & ks & s0 & s1 & ss & Ek' & _ & _ & _ & _ & _ & _ & ->).
  rewrite Ek in Ek'. injection Ek' as <- <- <-.
  apply (forward_infeasible _ x y B C T H W (Z.to_nat k0) (Z.to_nat k1)
           ((k0 - 1) / 2) ((k1 - 1) / 2) Hx Hy
           (engine_kernel_size _ _ _ _ _) (engine_pad _ _ _ _ _ Ek)).
  destruct (fits C T H W (Z.to_nat k0) (Z.to_nat k1) ((k0 - 1) / 2) ((k1 - 1) / 2))
    eqn:Hfit; [|reflexivity].
  apply fits_iff in Hfit; [lia | assumption | assumption].
Qed.

Lemma forward_small_input_raises_witness :
  forward (engine {| kernel_size := IntList [4; 3]%Z; sigma := PyFloat 1.5;
                     k1 := 0.01; k2 := 0.03; data_range := 1 |} 4 3 1.5 1.5)
    (full [1; 1; 1; 1; 5]%nat 0.5) (full [1; 1; 1; 1; 5]%nat 0.25)
  = Raise RuntimeError.
Proof.
  apply (forward_small_input_raises
           {| kernel_size := IntList [4; 3]%Z; sigma := PyFloat 1.5;
              k1 := 0.01; k2 := 0.03; data_range := 1 |} _
           (full [1; 1; 1; 1; 5]%nat 0.5) (full [1; 1; 1; 1; 5]%nat 0.25)
           1 1 1 1 5 4 3);
    try reflexivity; try lia.
  - apply (init_returns _ 4 3 1.5 1.5 [] []); try reflexivity; try lia; cbn; lra.
  - right. right. left. cbn. lia.
Defined.

(** Property X13.  A kernel list of three or more sizes is accepted by
    [__init__] (the builder reads the first two) but gives a padding list
    too long for [conv3d]: every call on inputs of one 5-axis shape
    raises. *)
Theorem forward_extra_kernel_sizes_raise
  (a : args) (e : SSIM3D.t) (x y : tensor) (B C T H W : nat) :
  __init__ a = Ok e ->
  (3 <= length (int_pair (kernel_size a)))%nat ->
  size x = [B; C; T; H; W] -> size y = [B; C; T; H; W] ->
  forward e x y = Raise RuntimeError.
Proof.
  intros Hinit Hlen Hx Hy.
  destruct (init_inv a e Hinit)
    as (k0 & k1 & ks & s0 & s1 & ss & Ek & _ & _ & _ & _ & _ & _ & ->).
  apply (forward_bad_pad _ x y B C T H W (Z.to_nat k0) (Z.to_nat k1) Hx Hy).
  - reflexivity.
  - cbn [pad engine length]. rewrite length_map. lia.
Qed.

Lemma forward_extra_kernel_sizes_raise_witness :
  __init__ {| kernel_size := IntList [3; 3; 3]%Z; sigma := PyFloat 1.5;
              k1 := 0.01; k2 := 0.03; data_range := 1 |}
  = Ok (engine {| kernel_size := IntList [3; 3; 3]%Z; sigma := PyFloat 1.5;
                  k1 := 0.01; k2 := 0.03; data_range := 1 |} 3 3 1.5 1.5) /\
  forward (engine {| kernel_size := IntList [3; 3; 3]%Z; sigma := PyFloat 1.5;
                     k1 := 0.01; k2 := 0.03; data_range := 1 |} 3 3 1.5 1.5)
    (full [1; 1; 1; 5; 5]%nat 0.5) (full [1; 1; 1; 5; 5]%nat 0.25)
  = Raise RuntimeError.
Proof.
  assert (I : __init__ {| kernel_size := IntList [3; 3; 3]%Z; sigma := PyFloat 1.5;
                          k1 := 0.01; k2 := 0.03; data_range := 1 |}
              = Ok (engine {| kernel_size := IntList [3; 3; 3]%Z; sigma := PyFloat 1.5;
                              k1 := 0.01; k2 := 0.03; data_range := 1 |} 3 3 1.5 1.5)).
  { apply (init_returns _ 3 3 1.5 1.5 [3%Z] []); try reflexivity; try lia; cbn; lra. }
  split; [exact I|].
  apply (forward_extra_kernel_sizes_raise _ _ _ _ 1 1 1 5 5 I);
    first [reflexivity | cbn; lia].
Defined.

(** Property X14.  A kernel size of 0 is accepted by [__init__] (the
    kernel has no element, the padding is -1) but every call on inputs of
    one 5-axis shape raises. *)
Theorem forward_zero_kernel_size_raises
  (a : args) (e : SSIM3D.t) (x y : tensor) (B C T H W : nat) (k0 k1 : Z) :
  __init__ a = Ok e ->
  int_pair (kernel_size a) = [k0; k1] ->
  k0 = 0%Z \/ k1 = 0%Z ->
  size x = [B; C; T; H; W] -> size y = [B; C; T; H; W] ->
  forward e x y = Raise RuntimeError.
Proof.
  intros Hinit Ek Hz Hx Hy.
  destruct (init_inv a e Hinit)
    as (k0' & k1' & ks & s0 & s1 & ss & Ek' & _ & _ & _ & _ & _ & _ & ->).
  rewrite Ek in Ek'. injection Ek' as <- <- <-.
  apply (forward_infeasible _ x y B C T H W (Z.to_nat k0) (Z.to_nat k1)
           ((k0 - 1) / 2) ((k1 - 1) / 2) Hx Hy
           (engine_kernel_size _ _ _ _ _) (engine_pad _ _ _ _ _ Ek)).
  unfold fits. destruct Hz as [-> | ->]; cbn [Z.to_nat Nat.leb];
    rewrite ?andb_false_r; reflexivity.
Qed.

Lemma forward_zero_kernel_size_raises_witness :
  __init__ {| kernel_size := PyInt 0; sigma := PyFloat 1.5;
              k1 := 0.01; k2 := 0.03; data_range := 1 |}
  = Ok (engine {| kernel_size := PyInt 0; sigma := PyFloat 1.5;
                  k1 := 0.01; k2 := 0.03; data_range := 1 |} 0 0 1.5 1.5) /\
  forward (engine {| kernel_size := PyInt 0; sigma := PyFloat 1.5;
                     k1 := 0.01; k2 := 0.03; data_range := 1 |} 0 0 1.5 1.5)
    (full [1; 1; 1; 5; 5]%nat 0.5) (full [1; 1; 1; 5; 5]%nat 0.25)
  = Raise RuntimeError.
Proof.
  assert (I : __init__ {| kernel_size := PyInt 0; sigma := PyFloat 1.5;
                          k1 := 0.01; k2 := 0.03; data_range := 1 |}
              = Ok (engine {| kernel_size := PyInt 0; sigma := PyFloat 1.5;
                              k1 := 0.01; k2 := 0.03; data_range := 1 |} 0 0 1.5 1.5)).
  { apply (init_returns _ 0 0 1.5 1.5 [] []); try reflexivity; try lia; cbn; lra. }
  split; [exact I|].
  apply (forward_zero_kernel_size_raises _ _ _ _ 1 1 1 5 5 0 0 I);
    first [reflexivity | left; reflexivity].
Defined.

Lemma local_mean_one (s0 s1 : R) (v : tensor) (B C T H W b c t h w : nat) :
  size v = [B; C; T; H; W] -> (h < H)%nat -> (w < W)%nat ->
  local_mean (kernel2d 1 1 s0 s1) 0 0 v [b; c; t; h; w] = item v [b; c; t; h; w].
Proof.
  intros Hv Hh Hw.
  rewrite (local_mean_eq _ 0 0 v B C T H W 1 1) by (first [reflexivity | exact Hv]).
  rewrite rsum_one, rsum_one, kernel2d_item.
  pose proof (weight_sum 1 s0 ltac:(lia)) as E0.
  pose proof (weight_sum 1 s1 ltac:(lia)) as E1.
  change (Z.to_nat 1) with 1%nat in E0, E1. rewrite rsum_one in E0, E1.
  rewrite E0, E1. unfold pad0.
  replace (0 <=? h + 0)%nat with true by (symmetry; apply Nat.leb_le; lia).
  replace (h + 0 <? 0 + H)%nat with true by (symmetry; apply Nat.ltb_lt; lia).
  replace (0 <=? w + 0)%nat with true by (symmetry; apply Nat.leb_le; lia).
  replace (w + 0 <? 0 + W)%nat with true by (symmetry; apply Nat.ltb_lt; lia).
  cbn [andb]. replace (h + 0 - 0)%nat with h by lia.
  replace (w + 0 - 0)%nat with w by lia. ring.
Qed.

(** Property X15.  With kernel size 1 and no deviation equal to 0 no
    neighbour enters a window: the local variances and covariance vanish
    and the map is, pixel by pixel, [(2 x y + c1) / (x^2 + y^2 + c1)]. *)
Theorem forward_kernel_size_one
  (a : args) (e : SSIM3D.t) (x y : tensor) (B C T H W : nat) :
  __init__ a = Ok e ->
  Forall (fun s => s <> 0) (float_pair (sigma a)) ->
  int_pair (kernel_size a) = [1; 1]%Z ->
  size x = [B; C; T; H; W] -> size y = [B; C; T; H; W] ->
  (1 <= C)%nat -> (1 <= T)%nat -> (1 <= H)%nat -> (1 <= W)%nat ->
  exists out, forward e x y = Ok out /\
    size out = [B; C; T; H; W] /\
    forall idx, in_range idx (size out) ->
      item out idx
      = (2 * item x idx * item y idx + c1 e)
        / (item x idx ^ 2 + item y idx ^ 2 + c1 e).
Proof.
  intros Hinit Hsigma Ek Hx Hy HC HT HH HW.
  assert (Hfit : fits C T H W (Z.to_nat 1) (Z.to_nat 1) ((1 - 1) / 2) ((1 - 1) / 2) = true)
    by (apply fits_iff; cbn; lia).
  destruct (forward_of_init a e x y B C T H W 1 1 Hinit Ek Hx Hy Hfit)
    as (s0 & s1 & out & -> & _ & _ & P1 & P2 & Hout & Hsz & Hitem).
  assert (Hsz' : size out = [B; C; T; H; W]).
  { rewrite Hsz. unfold out_extent. cbn. repeat f_equal; lia. }
  exists out. split; [exact Hout|]. split; [exact Hsz'|].
  intros idx Hin. rewrite (proj2 (Hitem idx Hin)).
  rewrite Hsz' in Hin.
  destruct (in_range5_inv _ _ _ _ _ _ Hin) as (b & c & t & h & w & -> & Hb & Hc & Ht & Hh & Hw).
  change (Z.to_nat ((1 - 1) / 2)) with 0%nat. cbn [kernel engine].
  rewrite !(local_mean_one s0 s1 _ B C T H W) by (cbn [size square product]; assumption).
  cbn [item square product]. unfold ssim.
  set (u := item x [b; c; t; h; w]). set (v := item y [b; c; t; h; w]).
  set (k := c1 (engine a 1 1 s0 s1)) in *. set (k' := c2 (engine a 1 1 s0 s1)) in *.
  assert (0 < u ^ 2 + v ^ 2 + k) by nra.
  field. split; nra.
Qed.

Lemma forward_kernel_size_one_witness :
  exists out,
    forward (engine {| kernel_size := PyInt 1; sigma := PyFloat 1.5;
                       k1 := 0.01; k2 := 0.03; data_range := 1 |} 1 1 1.5 1.5)
      (full [1; 1; 1; 2; 2]%nat 0.5) (full [1; 1; 1; 2; 2]%nat 0.25) = Ok out /\
    size out = [1; 1; 1; 2; 2]%nat.
Proof.
  destruct (forward_kernel_size_one
              {| kernel_size := PyInt 1; sigma := PyFloat 1.5;
                 k1 := 0.01; k2 := 0.03; data_range := 1 |}
              (engine {| kernel_size := PyInt 1; sigma := PyFloat 1.5;
                         k1 := 0.01; k2 := 0.03; data_range := 1 |} 1 1 1.5 1.5)
              (full [1; 1; 1; 2; 2]%nat 0.5) (full [1; 1; 1; 2; 2]%nat 0.25)
              1 1 1 2 2) as (out & Hout & Hsz & _);
    try reflexivity; try lia.
  - apply (init_returns _ 1 1 1.5 1.5 [] []); try reflexivity; try lia; cbn; lra.
  - repeat constructor; lra.
  - exists out. split; assumption.
Defined.

Lemma local_mean_scal (K : tensor) (ph pw : nat) (v v' : tensor) (r : R)
  (idx : list nat) :
  size v' = size v -> (forall i, item v' i = r * item v i) ->
  local_mean K ph pw v' idx = r * local_mean K ph pw v idx.
Proof.
  intros Hs Hi. unfold local_mean. rewrite Hs.
  rewrite <- rsum_scal. apply rsum_ext. intros i _.
  rewrite <- rsum_scal. apply rsum_ext. intros j _.
  rewrite (pad0_ext _ _ _ _ _ (fun h w => r * item v [nth 0 idx O; nth 1 idx O; nth 2 idx O; h; w]))
    by (intros; apply Hi).
  rewrite pad0_scal. ring.
Qed.

Lemma ssim_scale (s c1 c2 ux uy uxx uyy uxy : R) :
  s <> 0 -> 0 < ux ^ 2 + uy ^ 2 + c1 -> 0 < (uxx - ux ^ 2) + (uyy - uy ^ 2) + c2 ->
  ssim (s ^ 2 * c1) (s ^ 2 * c2) (s * ux) (s * uy) (s ^ 2 * uxx) (s ^ 2 * uyy) (s ^ 2 * uxy)
  = ssim c1 c2 ux uy uxx uyy uxy.
Proof.
  intros Hs B1 B2. unfold ssim.
  assert (S2 : 0 < s ^ 2) by (destruct (Rtotal_order s 0) as [|[|]]; nra).
  assert (S4 : 0 < s ^ 2 * s ^ 2) by nra.
  replace ((2 * (s * ux) * (s * uy) + s ^ 2 * c1)
           * (2 * (s ^ 2 * uxy - s * ux * (s * uy)) + s ^ 2 * c2))
    with (s ^ 2 * s ^ 2 * ((2 * ux * uy + c1) * (2 * (uxy - ux * uy) + c2))) by ring.
  replace (((s * ux) ^ 2 + (s * uy) ^ 2 + s ^ 2 * c1)
           * (s ^ 2 * uxx - (s * ux) ^ 2 + (s ^ 2 * uyy - (s * uy) ^ 2) + s ^ 2 * c2))
    with (s ^ 2 * s ^ 2 * ((ux ^ 2 + uy ^ 2 + c1)
                           * (uxx - ux ^ 2 + (uyy - uy ^ 2) + c2))) by ring.
  set (N := (2 * ux * uy + c1) * (2 * (uxy - ux * uy) + c2)).
  set (D := (ux ^ 2 + uy ^ 2 + c1) * (uxx - ux ^ 2 + (uyy - uy ^ 2) + c2)).
  assert (0 < D) by (apply Rmult_lt_0_compat; assumption).
  field. split; lra.
Qed.

(** Property X16.  Scaling both inputs and the engine's [data_range] by
    one positive factor leaves the outcome unchanged. *)
Theorem forward_scale_invariant
  (a : args) (e e' : SSIM3D.t) (x y : tensor) (B C T H W : nat) (k0 k1 : Z) (s : R) :
  0 < s ->
  __init__ a = Ok e ->
  __init__ (with_data_range a (s * data_range a)) = Ok e' ->
  int_pair (kernel_size a) = [k0; k1] ->
  size x = [B; C; T; H; W] -> size y = [B; C; T; H; W] ->
  req (forward e' (Torch.smul s x) (Torch.smul s y)) (forward e x y).
Proof.
  intros Hs Hinit Hinit' Ek Hx Hy.
  destruct (init_inv a e Hinit)
    as (k0' & k1' & ks & s0 & s1 & ss & Ek' & Es & _ & _ & Hd & Hk1 & Hk2 & ->).
  rewrite Ek in Ek'. injection Ek' as <- <- <-.
  destruct (init_inv _ e' Hinit')
    as (k0' & k1' & ks' & s0' & s1' & ss' & Ek' & Es' & _ & _ & Hd' & Hk1' & Hk2' & ->).
  cbn [with_data_range kernel_size sigma] in Ek', Es'.
  rewrite Ek in Ek'. injection Ek' as <- <- <-.
  rewrite Es in Es'. injection Es' as <- <- <-.
  set (a' := with_data_range a (s * data_range a)) in *.
  assert (Ek' : int_pair (kernel_size a') = [k0; k1]) by exact Ek.
  assert (Hsx : size (Torch.smul s x) = [B; C; T; H; W]) by exact Hx.
  assert (Hsy : size (Torch.smul s y) = [B; C; T; H; W]) by exact Hy.
  destruct (fits C T H W (Z.to_nat k0) (Z.to_nat k1) ((k0 - 1) / 2) ((k1 - 1) / 2))
    eqn:Hfit.
  - destruct (forward_feasible (engine a k0 k1 s0 s1) x y B C T H W
                (Z.to_nat k0) (Z.to_nat k1) ((k0 - 1) / 2) ((k1 - 1) / 2)
                Hx Hy (engine_kernel_size _ _ _ _ _) (engine_pad _ _ _ _ _ Ek) Hfit)
      as (out & -> & Hsz & Hitem).
    destruct (forward_feasible (engine a' k0 k1 s0 s1) _ _ B C T H W
                (Z.to_nat k0) (Z.to_nat k1) ((k0 - 1) / 2) ((k1 - 1) / 2)
                Hsx Hsy (engine_kernel_size _ _ _ _ _) (engine_pad _ _ _ _ _ Ek') Hfit)
      as (out' & -> & Hsz' & Hitem').
    cbn [req]. split; [congruence|].
    intros idx Hin. rewrite (Hitem' idx Hin).
    rewrite Hitem by (rewrite Hsz, <- Hsz'; exact Hin).
    assert (G : (1 <= k0)%Z /\ (1 <= k1)%Z).
    { unfold fits in Hfit. rewrite !andb_true_iff, !Nat.leb_le in Hfit. lia. }
    assert (Hl : length idx = 5%nat).
    { rewrite Hsz' in Hin. apply Forall2_length in Hin. exact Hin. }
    cbn [kernel engine c1 c2].
    rewrite (local_mean_scal _ _ _ x (Torch.smul s x) s) by (intros; reflexivity).
    rewrite (local_mean_scal _ _ _ y (Torch.smul s y) s) by (intros; reflexivity).
    rewrite (local_mean_scal _ _ _ (square x) (square (Torch.smul s x)) (s ^ 2))
      by (intros; cbn; try ring; reflexivity).
    rewrite (local_mean_scal _ _ _ (square y) (square (Torch.smul s y)) (s ^ 2))
      by (intros; cbn; try ring; reflexivity).
    rewrite (local_mean_scal _ _ _ (product x y)
               (product (Torch.smul s x) (Torch.smul s y)) (s ^ 2))
      by (intros; cbn; try ring; reflexivity).
    cbn [a' with_data_range SSIM3D.k1 k2 data_range].
    replace ((SSIM3D.k1 a * (s * data_range a)) ^ 2)
      with (s ^ 2 * (SSIM3D.k1 a * data_range a) ^ 2) by ring.
    replace ((k2 a * (s * data_range a)) ^ 2)
      with (s ^ 2 * (k2 a * data_range a) ^ 2) by ring.
    destruct (local_moments k0 k1 s0 s1 (Z.to_nat ((k0 - 1) / 2)) (Z.to_nat ((k1 - 1) / 2))
                x y B C T H W idx (proj1 G) (proj2 G) Hx Hy Hl) as (Vx & Vy & _ & _).
    pose proof (engine_c1_pos a k0 k1 s0 s1 Hd Hk1) as P1.
    pose proof (engine_c2_pos a k0 k1 s0 s1 Hd Hk2) as P2.
    cbn [c1 c2 engine] in P1, P2.
    apply ssim_scale; [lra | nra | lra].
  - rewrite (forward_infeasible _ _ _ B C T H W _ _ _ _ Hsx Hsy
               (engine_kernel_size _ _ _ _ _) (engine_pad _ _ _ _ _ Ek') Hfit).
    rewrite (forward_infeasible _ _ _ B C T H W _ _ _ _ Hx Hy
               (engine_kernel_size _ _ _ _ _) (engine_pad _ _ _ _ _ Ek) Hfit).
    reflexivity.
Qed.

Lemma forward_scale_invariant_witness :
  req (forward (engine (with_data_range defaults (255 * data_range defaults)) 11 11 1.5 1.5)
         (Torch.smul 255 (full [1; 1; 1; 2; 2]%nat 0.5))
         (Torch.smul 255 (full [1; 1; 1; 2; 2]%nat 0.25)))
      (forward (engine defaults 11 11 1.5 1.5)
         (full [1; 1; 1; 2; 2]%nat 0.5) (full [1; 1; 1; 2; 2]%nat 0.25)).
Proof.
  apply (forward_scale_invariant defaults _ _ _ _ 1 1 1 2 2 11 11 255);
    try reflexivity; try lra.
  - exact init_defaults.
  - apply (init_returns _ 11 11 1.5 1.5 [] []); try reflexivity; try lia; cbn; lra.
Defined.

(** ** A prediction of one batch entry against a longer target *)

Lemma combine_ok_ge (e : SSIM3D.t) (B N C T H W : nat) (ko : tensor) :
  size ko = [N; C; T; H; W] -> (5 * B <= N)%nat ->
  exists out, combine e B ko = Ok out /\ size out = [B; C; T; H; W] /\
    forall b c t h w, (b < B)%nat -> (c < C)%nat -> (t < T)%nat ->
      (h < H)%nat -> (w < W)%nat ->
      item out [b; c; t; h; w]
      = ssim (c1 e) (c2 e)
          (item ko [0 * B + b; c; t; h; w]%nat) (item ko [1 * B + b; c; t; h; w]%nat)
          (item ko [2 * B + b; c; t; h; w]%nat) (item ko [3 * B + b; c; t; h; w]%nat)
          (item ko [4 * B + b; c; t; h; w]%nat).
Proof.
  intros Hko HN. unfold combine.
  rewrite (slice0_ok (0 * B) _ ko _ B _ Hko) by lia. cbn [bind].
  rewrite (slice0_ok (1 * B) _ ko _ B _ Hko) by lia. cbn [bind].
  rewrite (slice0_ok (2 * B) _ ko _ B _ Hko) by lia. cbn [bind].
  rewrite (slice0_ok (3 * B) _ ko _ B _ Hko) by lia. cbn [bind].
  rewrite (slice0_ok (4 * B) _ ko _ B _ Hko) by lia. cbn [bind].
  unfold Torch.mul, Torch.sub, Torch.add, Torch.div.
  do 12 same_shape_step [B; C; T; H; W].
  eexists. split; [reflexivity|]. split; [reflexivity|].
  intros b c t h w Hb Hc Ht Hh Hw.
  pose proof (in_range5 _ _ _ _ _ _ _ _ _ _ Hb Hc Ht Hh Hw) as Hin.
  cbn [item size Torch.tmap Torch.pow2 Torch.smul Torch.sadd].
  rewrite !(bindex_id _ _ Hin).
  cbn [hd tl]. unfold ssim. f_equal; ring.
Qed.

(** Property X17.  A prediction of one batch entry against a target of
    four or more (other extents equal) raises nothing: the product
    broadcasts, and the five slices of one entry each hold the local means
    of the prediction and of the target's entries 0, 1, 2 and 3, which the
    formula takes for [ux], [uy], [uxx], [uyy] and [uxy]. *)
Theorem forward_single_prediction_misaligned
  (a : args) (e : SSIM3D.t) (x y : tensor) (B2 C T H W : nat) (k0 k1 : Z) :
  __init__ a = Ok e ->
  int_pair (kernel_size a) = [k0; k1] ->
  size x = [1; C; T; H; W]%nat -> size y = [B2; C; T; H; W] ->
  (4 <= B2)%nat ->
  fits C T H W (Z.to_nat k0) (Z.to_nat k1) ((k0 - 1) / 2) ((k1 - 1) / 2) = true ->
  let ph := Z.to_nat ((k0 - 1) / 2) in
  let pw := Z.to_nat ((k1 - 1) / 2) in
  exists out, forward e x y = Ok out /\
    size out = [1; C; T; out_extent H (Z.to_nat k0) ((k0 - 1) / 2);
                out_extent W (Z.to_nat k1) ((k1 - 1) / 2)]%nat /\
    forall c t h w, in_range [0; c; t; h; w]%nat (size out) ->
      item out [0; c; t; h; w]%nat
      = ssim (c1 e) (c2 e)
          (local_mean (kernel e) ph pw x [0; c; t; h; w]%nat)
          (local_mean (kernel e) ph pw y [0; c; t; h; w]%nat)
          (local_mean (kernel e) ph pw y [1; c; t; h; w]%nat)
          (local_mean (kernel e) ph pw y [2; c; t; h; w]%nat)
          (local_mean (kernel e) ph pw y [3; c; t; h; w]%nat).
Proof.
  intros Hinit Ek Hx Hy HB Hfit ph pw.
  destruct (init_inv a e Hinit)
    as (k0' & k1' & ks & s0 & s1 & ss & Ek' & _ & _ & _ & _ & _ & _ & ->).
  rewrite Ek in Ek'. injection Ek' as <- <- <-.
  assert (Hk : size (kernel (engine a k0 k1 s0 s1)) = [Z.to_nat k0; Z.to_nat k1])
    by reflexivity.
  rewrite forward_combine.
  unfold Torch.size_at. rewrite Hx. cbn [nth_error bind].
  rewrite (expand_kernel _ C _ _ Hk). cbn [bind].
  unfold Torch.mul.
  rewrite (binop_ok _ x y [B2; C; T; H; W]).
  2:{ rewrite Hx, Hy, broadcast_cons.
      destruct (Nat.eqb_spec 1 B2); [lia|]. reflexivity. }
  cbn [bind].
  rewrite (cat5_ok _ _ _ _ _ 1 B2 1 B2 B2 [C; T; H; W])
    by (cbn [size Torch.pow2 Torch.tmap]; first [assumption | reflexivity]).
  cbn [bind]. rewrite (engine_pad a k0 k1 s0 s1 Ek).
  rewrite (conv3d_check _ _ (1 + (B2 + (1 + (B2 + (B2 + 0)))))%nat C T H W
             (Z.to_nat k0) (Z.to_nat k1) ((k0 - 1) / 2) ((k1 - 1) / 2))
    by reflexivity.
  rewrite Hfit. cbn [bind].
  match goal with
  | |- context [combine ?e 1 ?ko] =>
      destruct (combine_ok_ge e 1 (1 + (B2 + (1 + (B2 + (B2 + 0))))) C T
                  (out_extent H (Z.to_nat k0) ((k0 - 1) / 2))
                  (out_extent W (Z.to_nat k1) ((k1 - 1) / 2)) ko eq_refl ltac:(lia))
        as (out & Hout & Hsz & Hitem)
  end.
  exists out. split; [exact Hout|]. split; [exact Hsz|].
  intros c t h w Hin. rewrite Hsz in Hin.
  destruct (in_range5_inv _ _ _ _ _ _ Hin)
    as (b' & c' & t' & h' & w' & E & Hb & Hc & Ht & Hh & Hw).
  injection E as <- <- <- <- <-.
  rewrite (Hitem 0%nat c t h w Hb Hc Ht Hh Hw). clear Hitem Hout.
  assert (HK : forall i j, (i < Z.to_nat k0)%nat -> (j < Z.to_nat k1)%nat ->
            item {| size := [C; 1; 1; Z.to_nat k0; Z.to_nat k1]%nat;
                    item := fun idx => item (kernel (engine a k0 k1 s0 s1))
                              (Torch.squash (size (kernel (engine a k0 k1 s0 s1)))
                                 (skipn 3 idx)) |}
                 [c; O; O; i; j] = item (kernel (engine a k0 k1 s0 s1)) [i; j]).
  { intros i j Hi Hj. cbn [item skipn]. rewrite Hk, squash_id; [reflexivity|].
    repeat constructor; assumption. }
  rewrite (local_mean_eq _ _ _ x 1 C T H W (Z.to_nat k0) (Z.to_nat k1)) by assumption.
  rewrite !(local_mean_eq _ _ _ y B2 C T H W (Z.to_nat k0) (Z.to_nat k1)) by assumption.
  f_equal;
    (apply conv3d_out_item; [assumption | assumption | exact HK |]);
    intros h' w' Hh' Hw'; cbn [item hd tl].
  - apply cat_item_here. rewrite Hx. cbn. lia.
  - change (1 * 1 + 0)%nat with (1 + 0)%nat.
    rewrite cat_item_skip by (rewrite Hx; reflexivity).
    apply cat_item_here. rewrite Hy. cbn. lia.
  - change (2 * 1 + 0)%nat with (1 + 1)%nat.
    rewrite cat_item_skip by (rewrite Hx; reflexivity).
    apply cat_item_here. rewrite Hy. cbn. lia.
  - change (3 * 1 + 0)%nat with (1 + 2)%nat.
    rewrite cat_item_skip by (rewrite Hx; reflexivity).
    apply cat_item_here. rewrite Hy. cbn. lia.
  - change (4 * 1 + 0)%nat with (1 + 3)%nat.
    rewrite cat_item_skip by (rewrite Hx; reflexivity).
    apply cat_item_here. rewrite Hy. cbn. lia.
Qed.

Lemma forward_single_prediction_misaligned_witness :
  exists out,
    forward (engine defaults 11 11 1.5 1.5)
      (full [1; 1; 1; 2; 2]%nat 0.5) (full [4; 1; 1; 2; 2]%nat 0.25) = Ok out /\
    size out = [1; 1; 1; 2; 2]%nat.
Proof.
  destruct (forward_single_prediction_misaligned defaults (engine defaults 11 11 1.5 1.5)
              (full [1; 1; 1; 2; 2]%nat 0.5) (full [4; 1; 1; 2; 2]%nat 0.25)
              4 1 1 2 2 11 11 init_defaults eq_refl eq_refl eq_refl
              ltac:(lia) eq_refl)
    as (out & Hout & Hsz & _).
  exists out. split; [exact Hout | exact Hsz].
Defined.

(** ** Constant images *)

Lemma local_mean_constant_interior (k0 k1 : Z) (s0 s1 : R) (ph pw : nat) (v : tensor)
  (u : R) (B C T H W b c t h w : nat) :
  (1 <= k0)%Z -> (1 <= k1)%Z ->
  size v = [B; C; T; H; W] -> (forall i, item v i = u) ->
  (ph <= h)%nat -> (h + Z.to_nat k0 <= ph + H)%nat ->
  (pw <= w)%nat -> (w + Z.to_nat k1 <= pw + W)%nat ->
  local_mean (kernel2d k0 k1 s0 s1) ph pw v [b; c; t; h; w] = u.
Proof.
  intros H0 H1 Hv Hu Hh1 Hh2 Hw1 Hw2.
  rewrite (local_mean_eq _ ph pw v B C T H W (Z.to_nat k0) (Z.to_nat k1))
    by (first [reflexivity | exact Hv]).
  rewrite (rsum2_ext _ _ _ (fun i j => u * item (kernel2d k0 k1 s0 s1) [i; j]
                                       + 0 * 0)).
  - rewrite rsum2_lin, kernel2d_total by assumption. ring.
  - intros i j Hi Hj. unfold pad0.
    replace (ph <=? h + i)%nat with true by (symmetry; apply Nat.leb_le; lia).
    replace (h + i <? ph + H)%nat with true by (symmetry; apply Nat.ltb_lt; lia).
    replace (pw <=? w + j)%nat with true by (symmetry; apply Nat.leb_le; lia).
    replace (w + j <? pw + W)%nat with true by (symmetry; apply Nat.ltb_lt; lia).
    cbn [andb]. rewrite Hu. ring.
Qed.

(** Property X18.  For two constant images and an engine with no
    deviation equal to 0 the map is [(2 u v + c1) / (u^2 + v^2 + c1)] at
    every pixel whose window lies inside the image (at least the padding
    away from the border): there the normalised kernel returns the
    constants and the variances vanish. *)
Theorem forward_constant_interior
  (a : args) (e : SSIM3D.t) (B C T H W : nat) (k0 k1 : Z) (u v : R)
  (b c t h w : nat) :
  __init__ a = Ok e ->
  Forall (fun s => s <> 0) (float_pair (sigma a)) ->
  int_pair (kernel_size a) = [k0; k1] ->
  fits C T H W (Z.to_nat k0) (Z.to_nat k1) ((k0 - 1) / 2) ((k1 - 1) / 2) = true ->
  (b < B)%nat -> (c < C)%nat -> (t < T)%nat ->
  let ph := Z.to_nat ((k0 - 1) / 2) in
  let pw := Z.to_nat ((k1 - 1) / 2) in
  (ph <= h)%nat -> (h + Z.to_nat k0 <= ph + H)%nat ->
  (pw <= w)%nat -> (w + Z.to_nat k1 <= pw + W)%nat ->
  exists out,
    forward e (full [B; C; T; H; W] u) (full [B; C; T; H; W] v) = Ok out /\
    item out [b; c; t; h; w] = (2 * u * v + c1 e) / (u ^ 2 + v ^ 2 + c1 e).
Proof.
  intros Hinit Hsigma Ek Hfit Hb Hc Ht ph pw Hh1 Hh2 Hw1 Hw2.
  destruct (forward_of_init a e (full [B; C; T; H; W] u) (full [B; C; T; H; W] v)
              B C T H W k0 k1 Hinit Ek eq_refl eq_refl Hfit)
    as (s0 & s1 & out & -> & G0 & G1 & P1 & P2 & Hout & Hsz & Hitem).
  exists out. split; [exact Hout|].
  assert (Hin : in_range [b; c; t; h; w] (size out)).
  { rewrite Hsz. apply in_range5; try assumption; unfold out_extent; fold ph pw; lia. }
  rewrite (proj2 (Hitem _ Hin)). fold ph pw. cbn [kernel engine].
  rewrite (local_mean_constant_interior k0 k1 s0 s1 ph pw _ u B C T H W)
    by (first [assumption | reflexivity]).
  rewrite (local_mean_constant_interior k0 k1 s0 s1 ph pw _ v B C T H W)
    by (first [assumption | reflexivity]).
  rewrite (local_mean_constant_interior k0 k1 s0 s1 ph pw _ (u ^ 2) B C T H W)
    by (first [assumption | reflexivity]).
  rewrite (local_mean_constant_interior k0 k1 s0 s1 ph pw _ (v ^ 2) B C T H W)
    by (first [assumption | reflexivity]).
  rewrite (local_mean_constant_interior k0 k1 s0 s1 ph pw _ (u * v) B C T H W)
    by (first [assumption | reflexivity]).
  unfold ssim.
  set (k := c1 (engine a k0 k1 s0 s1)) in *. set (k' := c2 (engine a k0 k1 s0 s1)) in *.
  assert (0 < u ^ 2 + v ^ 2 + k) by nra.
  field. split; nra.
Qed.

Lemma forward_constant_interior_witness :
  exists out,
    forward (engine defaults 11 11 1.5 1.5)
      (full [1; 1; 1; 11; 11]%nat 0.5) (full [1; 1; 1; 11; 11]%nat 0.25) = Ok out /\
    item out [0; 0; 0; 5; 5]%nat
    = (2 * 0.5 * 0.25 + c1 (engine defaults 11 11 1.5 1.5))
      / (0.5 ^ 2 + 0.25 ^ 2 + c1 (engine defaults 11 11 1.5 1.5)).
Proof.
  assert (Hsigma : Forall (fun s => s <> 0) (float_pair (sigma defaults)))
    by (repeat constructor; lra).
  apply (forward_constant_interior defaults (engine defaults 11 11 1.5 1.5)
           1 1 1 11 11 11 11 0.5 0.25 0 0 0 5 5 init_defaults Hsigma eq_refl eq_refl);
    vm_compute; lia.
Defined.

(** Property X19.  The deviation is not validated and enters only through
    its square: a negative [sigma] gives the kernel of its absolute
    value. *)
Theorem create_1d_ignores_sigma_sign (kernel_size : Z) (sigma : R) :
  req (create_1d_gaussian_kernel kernel_size (- sigma))
      (create_1d_gaussian_kernel kernel_size sigma).
Proof.
  assert (G : forall i, gauss kernel_size (- sigma) i = gauss kernel_size sigma i).
  { intros i. unfold gauss. f_equal. f_equal. unfold Rdiv.
    rewrite Rinv_opp. ring. }
  destruct (Z_lt_le_dec kernel_size 0) as [Hk|Hk].
  - rewrite !create_1d_raises by assumption. reflexivity.
  - rewrite !create_1d_returns by assumption. cbn [req]. split; [reflexivity|].
    intros idx _. cbn [item]. rewrite G. f_equal.
    apply rsum_ext. intros i _. apply G.
Qed.
